(** * pylgcpd: the EM registration engine and its affine transform model

    A shallow embedding of [pylgcpd/emregistration.py] (class
    [EMRegistration]) and [pylgcpd/affine_registration.py] (class
    [AffineRegistration]), and the properties of the engine proved on it.

    Conventions of the embedding.
    - Array entries and the attributes [sigma2], [ss2] and [outliers],
      which enter the arithmetic on arrays, are real numbers: the
      arithmetic is exact, without rounding, overflow or underflow.
    - The floats a caller passes and the attributes [tolerance], [diff]
      and [q], which only the test of the loop and the floor of the
      variance read, range over the real numbers and the special values
      [inf], [-inf] and [nan] ([ereal]).
    - A Python exception is a value [Raise e] of the [result] type.
      [Raise NonFinite] is no exception: it marks the point where the
      program stores [inf] or [nan] in an attribute that is a real number
      here (a hyper-parameter given as [inf] or [nan], a variance that is
      a quotient by zero) and goes on with it; the embedding follows the
      program no further.
    - The other quotients (by a normalization scale, by [sigma2] in the
      kernel, by [ss2], by [Np_with_landmarks] in the affine update) are
      quotients of real numbers, which follow the program where the
      divisor is not zero; the properties on the values of the kernel
      have the hypothesis [sigma2 > 0], those on the normalization the
      hypothesis that the scale is not zero.
    - The expectation step in binary64, as far as one column of [P], is
      in the module [Binary64].
    - A two-dimensional array is the list of its rows; the counts
      [N], [M], [D], [K] are fields of the engine, as in the source.
      Element-wise operations pair the entries of their operands; the
      source combines arrays of equal extents (NumPy raises otherwise),
      which [well_shaped] records where a property depends on it.
    - [register]'s [while] loop is run with fuel: [None] means the fuel
      ran out before the loop condition became false. *)

From Stdlib Require Import String.
From Stdlib Require Import Reals Lra Lia List ZArith QArith Qround Bool.
From Stdlib Require PrimFloat.
Import ListNotations.

Local Open Scope R_scope.

(** ** Python results *)

(** How a call ends when it does not return: the Python exceptions the
    two files can raise, [CallbackError] for whatever a callback raises,
    and [NonFinite], which is no exception (see the conventions). *)
Inductive exn : Type :=
| ValueError
| IndexError
| TypeError
| ZeroDivisionError
| OverflowError
| NotImplementedError
| LinAlgError
| CallbackError
| NonFinite.

Inductive result (A : Type) : Type :=
| Ok (a : A)
| Raise (e : exn).

Arguments Ok {A} a.
Arguments Raise {A} e.

Definition bind {A B : Type} (c : result A) (k : A -> result B) : result B :=
  match c with
  | Ok a => k a
  | Raise e => Raise e
  end.

Notation "x <- c ;; k" := (bind c (fun x => k))
  (at level 61, c at next level, right associativity).
Notation "c ;;; k" := (bind c (fun _ => k))
  (at level 61, right associativity).

(** [if cond: raise e] *)
Definition raise_if (cond : bool) (e : exn) : result unit :=
  if cond then Raise e else Ok tt.

(** Case analysis on the successive steps of a computation that
    returned. *)
Ltac step_binds H :=
  repeat match type of H with
         | bind ?c _ = Ok _ =>
           let E := fresh "E" in
           destruct c eqn:E; cbn [bind] in H; [| discriminate H]
         end.

(** ** Python numbers *)

(** A float: a finite value (every finite double is a rational), or one of
    the three special values. *)
Inductive pyfloat : Type :=
| FFin (x : Q)
| FPosInf
| FNegInf
| FNaN.

(** The values [max_iterations] can be given: [None], an [int], a [float],
    or an object that is no [numbers.Number]. *)
Inductive pyobj : Type :=
| PyNone
| PyInt (z : Z)
| PyFloat (f : pyfloat)
| PyOther.

(** [isinstance(v, numbers.Number)] *)
Definition is_Number (v : pyobj) : bool :=
  match v with
  | PyInt _ | PyFloat _ => true
  | _ => false
  end.

(** [isinstance(v, int)] *)
Definition is_int (v : pyobj) : bool :=
  match v with
  | PyInt _ => true
  | _ => false
  end.

(** [v < 0] on a number; a comparison with [nan] is false. *)
Definition lt_zero (v : pyobj) : bool :=
  match v with
  | PyInt z => (z <? 0)%Z
  | PyFloat (FFin x) => if Qlt_le_dec x 0 then true else false
  | PyFloat FNegInf => true
  | _ => false
  end.

(** Truncation toward zero of a rational. *)
Definition Qtrunc (x : Q) : Z :=
  if Qlt_le_dec x 0 then Qceiling x else Qfloor x.

(** [int(v)] on a number: truncation toward zero; [int(inf)] raises
    [OverflowError] and [int(nan)] raises [ValueError]. *)
Definition py_int (v : pyobj) : result Z :=
  match v with
  | PyInt z => Ok z
  | PyFloat (FFin x) => Ok (Qtrunc x)
  | PyFloat FNaN => Raise ValueError
  | PyFloat _ => Raise OverflowError
  | _ => Raise TypeError
  end.

(** A float as a comparison sees it: a real number, or one of [inf],
    [-inf] and [nan]. *)
Inductive ereal : Type :=
| Fin (r : R)
| Inf
| NegInf
| NaN.

(** [a < b] and [a <= b]; a comparison with [nan] is false. *)
Definition ereal_ltb (a b : ereal) : bool :=
  match a, b with
  | Fin x, Fin y => if Rlt_dec x y then true else false
  | Fin _, Inf => true
  | NegInf, Fin _ => true
  | NegInf, Inf => true
  | _, _ => false
  end.

Definition ereal_leb (a b : ereal) : bool :=
  match a, b with
  | Fin x, Fin y => if Rle_dec x y then true else false
  | Fin _, Inf => true
  | NegInf, Fin _ => true
  | NegInf, Inf => true
  | Inf, Inf => true
  | NegInf, NegInf => true
  | _, _ => false
  end.

(** [d > tol] *)
Definition ereal_gtb (d tol : ereal) : bool := ereal_ltb tol d.

(** [v / k] for a real [k > 0] *)
Definition ereal_div (v : ereal) (k : R) : ereal :=
  match v with
  | Fin r => Fin (r / k)
  | other => other
  end.

(** A float stored in an attribute that is a real number here. *)
Definition real_attr (v : ereal) : result R :=
  match v with
  | Fin r => Ok r
  | _ => Raise NonFinite
  end.

(** ** Arrays *)

Definition vec : Type := list R.
Definition matrix : Type := list vec.

(** What [xp.asarray] returns, by rank.  [Nd0] is the zero-dimensional
    array, which is what [xp.asarray(None)] is (an object array of shape
    [()]); [Nd2 c rows] has shape [(len rows, c)]. *)
Inductive ndarray : Type :=
| Nd0
| Nd1 (v : vec)
| Nd2 (c : nat) (rows : matrix)
| NdHigh (n0 n1 n2 : nat) (rest : list nat).

Definition shape (a : ndarray) : list nat :=
  match a with
  | Nd0 => []
  | Nd1 v => [length v]
  | Nd2 c rows => [length rows; c]
  | NdHigh n0 n1 n2 rest => n0 :: n1 :: n2 :: rest
  end.

Definition ndim (a : ndarray) : nat := length (shape a).

(** An argument of the constructor: [None] or something array-like. *)
Inductive pyarg : Type :=
| ArgNone
| ArgArray (a : ndarray).

Definition asarray (x : pyarg) : ndarray :=
  match x with
  | ArgNone => Nd0
  | ArgArray a => a
  end.

(** [a is not None] on the result of [xp.asarray]: an array object is
    never [None]. *)
Definition is_not_None (a : ndarray) : bool := true.

(** [a.shape[i]]: indexing the shape tuple out of range raises. *)
Definition shape_at (a : ndarray) (i : nat) : result nat :=
  match nth_error (shape a) i with
  | Some n => Ok n
  | None => Raise IndexError
  end.

(** [len(a)]: a zero-dimensional array has no length. *)
Definition py_len (a : ndarray) : result nat :=
  match shape a with
  | [] => Raise TypeError
  | n :: _ => Ok n
  end.

Definition shape_eqb (s1 s2 : list nat) : bool :=
  if list_eq_dec Nat.eq_dec s1 s2 then true else false.

(** [xp.concatenate([A, b])] along axis 0, [A] being two-dimensional with
    [c] columns: [b] must have the same rank and the same second extent. *)
Definition concatenate (c : nat) (A : matrix) (b : ndarray) : result matrix :=
  match b with
  | Nd2 c' rows => if Nat.eqb c c' then Ok (A ++ rows) else Raise ValueError
  | _ => Raise ValueError
  end.

(** *** Arithmetic on rows and matrices *)

Fixpoint zipWith {A B C : Type} (f : A -> B -> C) (l1 : list A) (l2 : list B)
  : list C :=
  match l1, l2 with
  | a :: l1', b :: l2' => f a b :: zipWith f l1' l2'
  | _, _ => []
  end.

(** [xp.sum] of a one-dimensional array *)
Definition sum (v : vec) : R := fold_right Rplus 0 v.

(** column [j] of a matrix *)
Definition col (j : nat) (A : matrix) : vec := map (fun row => nth j row 0) A.

(** [xp.sum(A, axis=0)] for [A] with [c] columns *)
Definition sum_axis0 (c : nat) (A : matrix) : vec :=
  map (fun j => sum (col j A)) (seq 0 c).

(** [xp.sum(A, axis=1)] *)
Definition sum_axis1 (A : matrix) : vec := map sum A.

(** [xp.sum(A)] of a two-dimensional array *)
Definition sum_all (A : matrix) : R := sum (map sum A).

(** [xp.zeros(n)] and [xp.zeros((r, c))] *)
Definition zeros (n : nat) : vec := repeat 0 n.
Definition zeros2 (r c : nat) : matrix := repeat (zeros c) r.

(** [xp.tile(v, (r, 1))] *)
Definition tile (v : vec) (r : nat) : matrix := repeat v r.

(** [xp.transpose(A)] for [A] with [c] columns *)
Definition transpose (c : nat) (A : matrix) : matrix :=
  map (fun j => col j A) (seq 0 c).

(** inner product of two one-dimensional arrays *)
Definition vdot (u v : vec) : R := sum (zipWith Rmult u v).

(** [xp.dot(A, B)] for [B] with [c] columns *)
Definition dot (c : nat) (A B : matrix) : matrix :=
  map (fun row => map (fun j => vdot row (col j B)) (seq 0 c)) A.

(** [xp.dot(A, v)] of a matrix and a one-dimensional array *)
Definition dot_vec (A : matrix) (v : vec) : vec := map (fun row => vdot row v) A.

(** [xp.identity(n)] and [xp.diag(v)] *)
Definition identity (n : nat) : matrix :=
  map (fun i => map (fun j => if Nat.eqb i j then 1 else 0) (seq 0 n)) (seq 0 n).

Definition diag (v : vec) : matrix :=
  map (fun i => map (fun j => if Nat.eqb i j then nth i v 0 else 0)
                    (seq 0 (length v)))
      (seq 0 (length v)).

(** element-wise operations, a matrix against a matrix, a row or a scalar *)
Definition mat_zip (f : R -> R -> R) (A B : matrix) : matrix :=
  zipWith (zipWith f) A B.

Definition mat_rowop (f : R -> R -> R) (A : matrix) (v : vec) : matrix :=
  map (fun row => zipWith f row v) A.

Definition mat_map (f : R -> R) (A : matrix) : matrix := map (map f) A.

(** squared Euclidean distance of two points *)
Definition dist2 (x y : vec) : R :=
  sum (zipWith (fun a b => (a - b) * (a - b)) x y).

(** [initialize_sigma2(X, Y)] *)
Definition initialize_sigma2 (D : nat) (X Y : matrix) : R :=
  let err := map (fun y => map (fun x => dist2 x y) X) Y in
  sum_all err / INR (D * length Y * length X).

(** ** Normalization *)

(** The four values [calculateNormalizationParams] computes.  They are
    stored in the dictionary [normalize_params] and captured by the two
    closures of [normalize_fncts]. *)
Record norm_env : Type := {
  X_mean : vec;
  Y_mean : vec;
  X_scale : R;
  Y_scale : R
}.

(** The mean and the scale the closure selects: [mode == 'X'] gives the
    target's, any other mode the source's. *)
Definition env_mean (env : norm_env) (mode : string) : vec :=
  if String.eqb mode "X" then X_mean env else Y_mean env.

Definition env_scale (env : norm_env) (mode : string) : R :=
  if String.eqb mode "X" then X_scale env else Y_scale env.

(** The closure [normalize(data, mode, invert=False)].  [data] has rows as
    long as the mean; [to_numpy] only moves an array between devices and
    is the identity here. *)
Definition normalize_fn (env : norm_env) (data : matrix) (mode : string)
           (invert : bool) : matrix :=
  let mean := env_mean env mode in
  let scale := env_scale env mode in
  if invert
  then mat_rowop Rplus (mat_map (fun v => v * scale) data) mean
  else mat_map (fun v => v / scale) (mat_rowop Rminus data mean).

(** The closure [denormalize(data, mode)] *)
Definition denormalize_fn (env : norm_env) (data : matrix) (mode : string)
  : matrix :=
  normalize_fn env data mode true.

(** [xp.mean(A, axis=0)] for [A] with [c] columns *)
Definition mean_axis0 (c : nat) (A : matrix) : vec :=
  map (fun x => x / INR (length A)) (sum_axis0 c A).

(** root-mean-square norm of the rows of a centered cloud, over [n] rows *)
Definition rms_scale (A : matrix) (n : nat) : R :=
  sqrt (sum (sum_axis1 (mat_map (fun v => v * v) A)) / INR n).

(** ** The engine *)

(** The attributes of an [EMRegistration] object; [model] holds the
    attributes a child class adds. *)
Record EMRegistration (T : Type) : Type := {
  verbose : bool;
  landmark_guided : bool;
  X_points : matrix;
  Y_points : matrix;
  N : nat;
  D : nat;
  M : nat;
  ss2 : R;
  K : nat;
  X_landmarks : matrix;
  Y_landmarks : matrix;
  X_points_and_landmarks : matrix;
  Y_points_and_landmarks : matrix;
  TY_points_and_landmarks : matrix;
  normalize : bool;
  normalize_joint : bool;
  normalize_params : norm_env;
  normalize_fncts : norm_env;
  max_iterations : option Z;
  force_max_iterations : bool;
  iteration : Z;
  diff : ereal;
  tolerance : ereal;
  outliers : R;
  sigma2 : R;
  q : ereal;
  P : matrix;
  Pt1 : vec;
  P1 : vec;
  PX : matrix;
  Np_with_landmarks : R;
  Np_without_landmarks : R;
  model : T
}.

Arguments verbose {T} _.
Arguments landmark_guided {T} _.
Arguments X_points {T} _.
Arguments Y_points {T} _.
Arguments N {T} _.
Arguments D {T} _.
Arguments M {T} _.
Arguments ss2 {T} _.
Arguments K {T} _.
Arguments X_landmarks {T} _.
Arguments Y_landmarks {T} _.
Arguments X_points_and_landmarks {T} _.
Arguments Y_points_and_landmarks {T} _.
Arguments TY_points_and_landmarks {T} _.
Arguments normalize {T} _.
Arguments normalize_joint {T} _.
Arguments normalize_params {T} _.
Arguments normalize_fncts {T} _.
Arguments max_iterations {T} _.
Arguments force_max_iterations {T} _.
Arguments iteration {T} _.
Arguments diff {T} _.
Arguments tolerance {T} _.
Arguments outliers {T} _.
Arguments sigma2 {T} _.
Arguments q {T} _.
Arguments P {T} _.
Arguments Pt1 {T} _.
Arguments P1 {T} _.
Arguments PX {T} _.
Arguments Np_with_landmarks {T} _.
Arguments Np_without_landmarks {T} _.
Arguments model {T} _.

(** The attributes assigned after construction, all at once; the others
    are kept. *)
Definition assign {T U : Type} (s : EMRegistration T)
           (TY : matrix) (it : Z) (df : ereal) (s2 : R) (qv : ereal)
           (Pm : matrix) (Pt1v P1v : vec) (PXm : matrix) (Npw Npwo : R)
           (m : U) : EMRegistration U :=
  {| verbose := verbose s;
     landmark_guided := landmark_guided s;
     X_points := X_points s;
     Y_points := Y_points s;
     N := N s;
     D := D s;
     M := M s;
     ss2 := ss2 s;
     K := K s;
     X_landmarks := X_landmarks s;
     Y_landmarks := Y_landmarks s;
     X_points_and_landmarks := X_points_and_landmarks s;
     Y_points_and_landmarks := Y_points_and_landmarks s;
     TY_points_and_landmarks := TY;
     normalize := normalize s;
     normalize_joint := normalize_joint s;
     normalize_params := normalize_params s;
     normalize_fncts := normalize_fncts s;
     max_iterations := max_iterations s;
     force_max_iterations := force_max_iterations s;
     iteration := it;
     diff := df;
     tolerance := tolerance s;
     outliers := outliers s;
     sigma2 := s2;
     q := qv;
     P := Pm;
     Pt1 := Pt1v;
     P1 := P1v;
     PX := PXm;
     Np_with_landmarks := Npw;
     Np_without_landmarks := Npwo;
     model := m |}.

(** [self.TY_points_and_landmarks = TY] *)
Definition set_TY {T : Type} (TY : matrix) (s : EMRegistration T)
  : EMRegistration T :=
  assign s TY (iteration s) (diff s) (sigma2 s) (q s) (P s) (Pt1 s) (P1 s)
         (PX s) (Np_with_landmarks s) (Np_without_landmarks s) (model s).

(** [self.iteration = it] *)
Definition set_iteration {T : Type} (it : Z) (s : EMRegistration T)
  : EMRegistration T :=
  assign s (TY_points_and_landmarks s) it (diff s) (sigma2 s) (q s) (P s)
         (Pt1 s) (P1 s) (PX s) (Np_with_landmarks s)
         (Np_without_landmarks s) (model s).

(** [self.q], [self.sigma2] and [self.diff], the attributes
    [update_variance] assigns *)
Definition set_variance {T : Type} (qv : ereal) (s2 : R) (df : ereal)
           (s : EMRegistration T) : EMRegistration T :=
  assign s (TY_points_and_landmarks s) (iteration s) df s2 qv (P s) (Pt1 s)
         (P1 s) (PX s) (Np_with_landmarks s) (Np_without_landmarks s)
         (model s).

(** the six attributes the expectation step assigns *)
Definition set_expectation {T : Type} (Pm : matrix) (Pt1v P1v : vec)
           (Npw Npwo : R) (PXm : matrix) (s : EMRegistration T)
  : EMRegistration T :=
  assign s (TY_points_and_landmarks s) (iteration s) (diff s) (sigma2 s)
         (q s) Pm Pt1v P1v PXm Npw Npwo (model s).

(** the attributes of the child class *)
Definition set_model {T U : Type} (m : U) (s : EMRegistration T)
  : EMRegistration U :=
  assign s (TY_points_and_landmarks s) (iteration s) (diff s) (sigma2 s)
         (q s) (P s) (Pt1 s) (P1 s) (PX s) (Np_with_landmarks s)
         (Np_without_landmarks s) m.

(** The attributes the normalization assigns, all at once; the others are
    kept. *)
Definition assign_normalization {T : Type} (s : EMRegistration T)
           (params fncts : norm_env) (Xp Xl Xaug Yp Yl Yaug TY : matrix)
  : EMRegistration T :=
  {| verbose := verbose s;
     landmark_guided := landmark_guided s;
     X_points := Xp;
     Y_points := Yp;
     N := N s;
     D := D s;
     M := M s;
     ss2 := ss2 s;
     K := K s;
     X_landmarks := Xl;
     Y_landmarks := Yl;
     X_points_and_landmarks := Xaug;
     Y_points_and_landmarks := Yaug;
     TY_points_and_landmarks := TY;
     normalize := normalize s;
     normalize_joint := normalize_joint s;
     normalize_params := params;
     normalize_fncts := fncts;
     max_iterations := max_iterations s;
     force_max_iterations := force_max_iterations s;
     iteration := iteration s;
     diff := diff s;
     tolerance := tolerance s;
     outliers := outliers s;
     sigma2 := sigma2 s;
     q := q s;
     P := P s;
     Pt1 := Pt1 s;
     P1 := P1 s;
     PX := PX s;
     Np_with_landmarks := Np_with_landmarks s;
     Np_without_landmarks := Np_without_landmarks s;
     model := model s |}.

(** [EMRegistration.calculateNormalizationParams]: the four values go to
    the dictionary [normalize_params] and into the closures of
    [normalize_fncts]. *)
Definition calculateNormalizationParams {T : Type} (s : EMRegistration T)
  : EMRegistration T :=
  let Xaug := X_points_and_landmarks s in
  let Yaug := Y_points_and_landmarks s in
  let env :=
    if normalize s then
      let X_mean := if normalize_joint s then mean_axis0 (D s) (Xaug ++ Yaug)
                    else mean_axis0 (D s) Xaug in
      let Y_mean := if normalize_joint s then mean_axis0 (D s) (Xaug ++ Yaug)
                    else mean_axis0 (D s) Yaug in
      let X := mat_rowop Rminus Xaug X_mean in
      let Y := mat_rowop Rminus Yaug Y_mean in
      let X_scale := if normalize_joint s
                     then rms_scale (X ++ Y) (length X + length Y)
                     else rms_scale X (length X) in
      let Y_scale := if normalize_joint s
                     then rms_scale (X ++ Y) (length X + length Y)
                     else rms_scale Y (length Y) in
      {| X_mean := X_mean; Y_mean := Y_mean;
         X_scale := X_scale; Y_scale := Y_scale |}
    else
      {| X_mean := zeros (D s); Y_mean := zeros (D s);
         X_scale := 1; Y_scale := 1 |} in
  assign_normalization s env env (X_points s) (X_landmarks s) Xaug
                       (Y_points s) (Y_landmarks s) Yaug
                       (TY_points_and_landmarks s).

(** [EMRegistration.normalizeData] *)
Definition normalizeData {T : Type} (s : EMRegistration T)
  : EMRegistration T :=
  let normalize := normalize_fn (normalize_fncts s) in
  assign_normalization s (normalize_params s) (normalize_fncts s)
                       (normalize (X_points s) "X"%string false)
                       (normalize (X_landmarks s) "X"%string false)
                       (normalize (X_points_and_landmarks s) "X"%string false)
                       (normalize (Y_points s) "Y"%string false)
                       (normalize (Y_landmarks s) "Y"%string false)
                       (normalize (Y_points_and_landmarks s) "Y"%string false)
                       (normalize (TY_points_and_landmarks s) "Y"%string false).

(** ** Construction *)

(** The arguments of [EMRegistration.__init__].  A float hyper-parameter
    is [None] or a number: an [int] or a [float], [inf], [-inf] and [nan]
    included (objects that are no numbers, for which the constructor
    raises [ValueError], and numbers without an order, such as [complex],
    are not among the arguments of the embedding); [max_iterations],
    whose Python type the constructor inspects, is a [pyobj]. *)
Record init_args : Type := {
  arg_X : pyarg;
  arg_Y : pyarg;
  arg_sigma2 : option ereal;
  arg_max_iterations : pyobj;
  arg_tolerance : option ereal;
  arg_outliers : option ereal;
  arg_ss2 : option ereal;
  arg_X_landmarks : pyarg;
  arg_Y_landmarks : pyarg;
  arg_normalize : option bool;
  arg_normalize_joint : option bool;
  arg_verbose : option bool;
  arg_force_max_iterations : option bool
}.

Inductive warning : Type :=
| NonIntegerMaxIterations (v : pyobj).

(** [v if v is not None else d] *)
Definition default {A : Type} (d : A) (v : option A) : A :=
  match v with
  | Some x => x
  | None => d
  end.

(** The tests of the validation block: [v <= 0], [v < 0] and [v >= 1].
    Each is false of [nan]. *)
Definition leb0 (v : ereal) : bool := ereal_leb v (Fin 0).
Definition ltb0 (v : ereal) : bool := ereal_ltb v (Fin 0).
Definition geb1 (v : ereal) : bool := ereal_leb (Fin 1) v.

(** [v is not None and test(v)] *)
Definition given_and (test : ereal -> bool) (v : option ereal) : bool :=
  match v with
  | Some x => test x
  | None => false
  end.

(** [v is not None] on a Python value *)
Definition given (v : pyobj) : bool :=
  match v with
  | PyNone => false
  | _ => true
  end.

(** The check and the cast of [max_iterations]: the value of the local
    variable afterwards and the warnings issued. *)
Definition check_max_iterations (v : pyobj) : result (pyobj * list warning) :=
  if given v && (negb (is_Number v) || lt_zero v) then Raise ValueError
  else if is_Number v && negb (is_int v) then
    z <- py_int v ;; Ok (PyInt z, [NonIntegerMaxIterations v])
  else Ok (v, []).

(** The iteration cap as the loop reads it: after the check the value is
    [None] or an [int]. *)
Definition cap_of (v : pyobj) : option Z :=
  match v with
  | PyInt z => Some z
  | _ => None
  end.

(** the rows of a two-dimensional array *)
Definition rows_of (a : ndarray) : matrix :=
  match a with
  | Nd2 _ rows => rows
  | _ => []
  end.

(** The value of an attribute that does not exist yet: [normalize_params]
    and [normalize_fncts] before [calculateNormalizationParams] assigns
    them. *)
Definition unset_params : norm_env :=
  {| X_mean := []; Y_mean := []; X_scale := 0; Y_scale := 0 |}.

(** [EMRegistration.__init__].  After [xp.asarray] the test
    [type(X) is not xp.ndarray] is false, so each of the first two checks
    is the test of [ndim].  The record is built where the source calls
    [calculateNormalizationParams]; the attributes the source assigns
    after that call, which the two normalization methods do not read, are
    given their values there, [sigma2] apart, which is computed from the
    normalized clouds and assigned last.  Nothing raises after the two
    concatenations: [ss2] and [outliers] are read as real numbers there,
    and [sigma2] at the end; a default [sigma2] is a quotient by
    [D * M * N]. *)
Definition EMRegistration_init (a : init_args)
  : result (EMRegistration unit * list warning) :=
  let X := asarray (arg_X a) in
  let Y := asarray (arg_Y a) in
  let Xl := asarray (arg_X_landmarks a) in
  let Yl := asarray (arg_Y_landmarks a) in
  raise_if (negb (Nat.eqb (ndim X) 2)) ValueError ;;;
  raise_if (negb (Nat.eqb (ndim Y) 2)) ValueError ;;;
  xd <- shape_at X 1 ;;
  yd <- shape_at Y 1 ;;
  raise_if (negb (Nat.eqb xd yd)) ValueError ;;;
  raise_if (given_and leb0 (arg_sigma2 a)) ValueError ;;;
  mi <- check_max_iterations (arg_max_iterations a) ;;
  raise_if (given_and ltb0 (arg_tolerance a)) ValueError ;;;
  raise_if (given_and (fun w => ltb0 w || geb1 w) (arg_outliers a))
           ValueError ;;;
  raise_if (given_and leb0 (arg_ss2 a)) ValueError ;;;
  (* Is this landmark-guided? *)
  guided <-
    (if is_not_None Xl && is_not_None Yl then
       k0 <- shape_at Xl 0 ;;
       Ok (negb (Nat.eqb k0 0) && shape_eqb (shape Xl) (shape Yl))
     else Ok false) ;;
  (if is_not_None Xl then
     l <- py_len Xl ;; raise_if (Nat.eqb l 0) ValueError
   else Ok tt) ;;;
  (if is_not_None Yl then
     l <- py_len Yl ;; raise_if (Nat.eqb l 0) ValueError
   else Ok tt) ;;;
  raise_if (is_not_None Xl && is_not_None Yl
            && negb (shape_eqb (shape Xl) (shape Yl)))
           ValueError ;;;
  (* Number of landmarks *)
  k <- (if guided then shape_at Xl 0 else Ok 0%nat) ;;
  (* Landmarks *)
  let Xlm := if guided then Xl else Nd2 xd [] in
  let Ylm := if guided then Yl else Nd2 xd [] in
  (* Points and landmarks concatenated *)
  Xaug <- concatenate xd (rows_of X) Xlm ;;
  Yaug <- concatenate xd (rows_of Y) Ylm ;;
  ss2v <- real_attr (default (Fin (1 / 10)) (arg_ss2 a)) ;;
  wv <- real_attr (default (Fin 0) (arg_outliers a)) ;;
  let cap := cap_of (fst mi) in
  let s :=
    {| verbose := default false (arg_verbose a);
       landmark_guided := guided;
       X_points := rows_of X;
       Y_points := rows_of Y;
       N := length (rows_of X);
       D := xd;
       M := length (rows_of Y);
       ss2 := ss2v;
       K := k;
       X_landmarks := rows_of Xlm;
       Y_landmarks := rows_of Ylm;
       X_points_and_landmarks := Xaug;
       Y_points_and_landmarks := Yaug;
       TY_points_and_landmarks := Yaug;
       normalize := default false (arg_normalize a);
       normalize_joint := default false (arg_normalize_joint a);
       normalize_params := unset_params;
       normalize_fncts := unset_params;
       max_iterations := cap;
       force_max_iterations :=
         match arg_force_max_iterations a, cap with
         | Some f, Some _ => f
         | _, _ => false
         end;
       iteration := 0%Z;
       diff := Inf;
       tolerance := default (Fin (1 / 1000)) (arg_tolerance a);
       outliers := wv;
       sigma2 := 0;
       q := Inf;
       P := zeros2 (length (rows_of Y) + k) (length (rows_of X) + k);
       Pt1 := zeros (length (rows_of X) + k);
       P1 := zeros (length (rows_of Y) + k);
       PX := zeros2 (length (rows_of Y) + k) xd;
       Np_with_landmarks := 0;
       Np_without_landmarks := 0;
       model := tt |} in
  let s := calculateNormalizationParams s in
  let s := normalizeData s in
  (* Initial variance of GMM *)
  s2 <- match arg_sigma2 a with
        | Some v => real_attr v
        | None =>
          if Nat.eqb (xd * length (rows_of Y) * length (rows_of X)) 0
          then Raise NonFinite
          else Ok (initialize_sigma2 (D s) (X_points s) (Y_points s))
        end ;;
  Ok (set_variance Inf s2 Inf s, snd mi).

(** ** The expectation step *)

(** [xp.finfo(float).eps] *)
Definition eps : R := / 2 ^ 52.

(** Division of two Python scalars: a zero divisor raises.  (When the
    operands are NumPy scalars the quotient is [inf] or [nan] instead;
    neither is a real number.) *)
Definition py_div (a b : R) : result R :=
  if Req_dec_T b 0 then Raise ZeroDivisionError else Ok (a / b).

Section Expectation.

Context {T : Type}.
Variable s : EMRegistration T.

(** [xp.exp(-P / (2 * sigma2))], [P] being the squared distances of the
    target points to the first [M] transformed source points.  The
    entries are those of the program, up to rounding and underflow, when
    [sigma2] is not 0. *)
Definition kernel : matrix :=
  map (fun y => map (fun x => exp (- dist2 x y / (2 * sigma2 s)))
                    (X_points s))
      (firstn (M s) (TY_points_and_landmarks s)).

(** The constant [c] of the denominator.  The power is the real power,
    which is Python's for the positive base a positive [sigma2] gives. *)
Definition outlier_constant : result R :=
  let c := Rpower (2 * PI * sigma2 s) (INR (D s) / 2) in
  c <- py_div (c * outliers s) (1 - outliers s) ;;
  py_div (c * INR (M s)) (INR (N s)).

(** [den[den == 0] = eps] on one entry *)
Definition guard_zero (d : R) : R := if Req_dec_T d 0 then eps else d.

(** The full denominator, tiled over [M] rows and guarded. *)
Definition denominator (c : R) : matrix :=
  let den := map (fun v => v + c) (sum_axis0 (length (X_points s)) kernel) in
  let den := tile den (M s) in
  mat_map guard_zero den.

(** [xp.pad(P, ((0,K),(0,K)), 'constant', constant_values=0)] for [P]
    with [c] columns *)
Definition pad (c k : nat) (Pm : matrix) : matrix :=
  map (fun row => row ++ zeros k) Pm ++ zeros2 k (c + k).

(** [P[m:, n:] = block] *)
Definition assign_block (m n : nat) (Pm block : matrix) : matrix :=
  firstn m Pm
  ++ zipWith (fun row brow => firstn n row ++ brow) (skipn m Pm) block.

(** [xp.identity(K) * sigma2 / ss2] *)
Definition landmark_block : matrix :=
  mat_map (fun v => v * sigma2 s / ss2 s) (identity (K s)).

(** The matrix [P] the step stores. *)
Definition expectation_P (c : R) : matrix :=
  let Pm := mat_zip Rdiv kernel (denominator c) in
  if landmark_guided s
  then assign_block (M s) (N s) (pad (length (X_points s)) (K s) Pm)
                    landmark_block
  else Pm.

(** number of columns of the stored [P] *)
Definition expectation_cols : nat :=
  if landmark_guided s then (length (X_points s) + K s)%nat
  else length (X_points s).

(** [EMRegistration.expectation] *)
Definition expectation : result (EMRegistration T) :=
  c <- outlier_constant ;;
  let Pm := expectation_P c in
  let Pt1v := sum_axis0 expectation_cols Pm in
  let P1v := sum_axis1 Pm in
  Ok (set_expectation Pm Pt1v P1v (sum P1v) (sum (firstn (M s) P1v))
                      (dot (D s) Pm (X_points_and_landmarks s)) s).

(** [EMRegistration.get_transformed_points]; [to_numpy] is the identity
    on the values. *)
Definition get_transformed_points : matrix :=
  if normalize s
  then denormalize_fn (normalize_fncts s)
                      (firstn (M s) (TY_points_and_landmarks s)) "X"
  else firstn (M s) (TY_points_and_landmarks s).

(** [EMRegistration.get_transformed_landmarks] *)
Definition get_transformed_landmarks : matrix :=
  if normalize s
  then denormalize_fn (normalize_fncts s)
                      (skipn (M s) (TY_points_and_landmarks s)) "X"
  else skipn (M s) (TY_points_and_landmarks s).

End Expectation.

(** ** The transform model and the registration loop *)

(** The methods a child class provides.  [update_hyperparameters] does
    nothing in the base class. *)
Class TransformModel (T : Type) : Type := {
  params : Type;
  update_hyperparameters : EMRegistration T -> result (EMRegistration T);
  update_transform : EMRegistration T -> result (EMRegistration T);
  transform_point_cloud : EMRegistration T -> result (EMRegistration T);
  update_variance : EMRegistration T -> result (EMRegistration T);
  get_registration_parameters : EMRegistration T -> result params
}.

(** The attributes that decide when the loop stops, apart from [diff]. *)
Definition same_control {T : Type} (s s' : EMRegistration T) : Prop :=
  iteration s' = iteration s
  /\ max_iterations s' = max_iterations s
  /\ force_max_iterations s' = force_max_iterations s
  /\ tolerance s' = tolerance s.

(** A model that leaves the iteration counter, the cap, the force flag and
    the tolerance to the engine. *)
Class ModelKeepsControl (T : Type) `{TransformModel T} : Prop := {
  update_hyperparameters_control :
    forall s s', update_hyperparameters s = Ok s' -> same_control s s';
  update_transform_control :
    forall s s', update_transform s = Ok s' -> same_control s s';
  transform_point_cloud_control :
    forall s s', transform_point_cloud s = Ok s' -> same_control s s';
  update_variance_control :
    forall s s', update_variance s = Ok s' -> same_control s s'
}.

(** The base class: the methods a child must define raise. *)
#[export] Instance base_model : TransformModel unit := {
  params := unit;
  update_hyperparameters := fun s => Ok s;
  update_transform := fun _ => Raise NotImplementedError;
  transform_point_cloud := fun _ => Raise NotImplementedError;
  update_variance := fun _ => Raise NotImplementedError;
  get_registration_parameters := fun _ => Raise NotImplementedError
}.

(** The keyword arguments the callback receives. *)
Record kwargs : Type := {
  kw_iteration : Z;
  kw_error : ereal;
  kw_X : matrix;
  kw_Y : matrix
}.

(** The [callback] argument: [None] when it is not callable; a callable
    observes its arguments and may raise. *)
Definition callback : Type := option (kwargs -> result unit).

(** the default [lambda **kwargs: None] *)
Definition default_callback : callback := Some (fun _ => Ok tt).

(** What a call of [register] that returns leaves: the engine, the number
    of passes through the loop body, and the returned pair. *)
Record outcome (T Pr : Type) : Type := {
  final : EMRegistration T;
  iterations : nat;
  returned : matrix * Pr
}.

Arguments final {T Pr} _.
Arguments iterations {T Pr} _.
Arguments returned {T Pr} _.

(** A run: the keyword arguments of every call of the callback, in order,
    and how the run ended ([None]: the fuel ran out). *)
Definition run (A : Type) : Type := (list kwargs * option (result A))%type.

Section Register.

Context {T : Type} `{TM : TransformModel T}.

(** [EMRegistration.maximization] *)
Definition maximization (s : EMRegistration T) : result (EMRegistration T) :=
  s <- update_transform s ;;
  s <- transform_point_cloud s ;;
  update_variance s.

(** [EMRegistration.iterate] *)
Definition iterate (s : EMRegistration T) : result (EMRegistration T) :=
  s <- update_hyperparameters s ;;
  s <- expectation s ;;
  s <- maximization s ;;
  Ok (set_iteration (iteration s + 1)%Z s).

(** The condition of the [while] loop. *)
Definition loop_condition (s : EMRegistration T) : bool :=
  match max_iterations s with
  | None => true
  | Some c => (iteration s <? c)%Z
  end
  && ((match max_iterations s with
       | None => false
       | Some _ => true
       end && force_max_iterations s)
      || ereal_gtb (diff s) (tolerance s)).

(** The keyword arguments built after an iteration. *)
Definition callback_kwargs (s : EMRegistration T) : kwargs :=
  {| kw_iteration := iteration s;
     kw_error := q s;
     kw_X := X_points s;
     kw_Y := firstn (M s) (TY_points_and_landmarks s) |}.

(** The [while] loop of [register]: [n] passes done so far, [log] the
    callback's arguments so far. *)
Fixpoint register_loop (fuel : nat) (cb : callback) (s : EMRegistration T)
         (n : nat) (log : list kwargs) : run (EMRegistration T * nat) :=
  match fuel with
  | O => (log, None)
  | S fuel' =>
    if loop_condition s then
      match iterate s with
      | Raise e => (log, Some (Raise e))
      | Ok s' =>
        match cb with
        | None => register_loop fuel' cb s' (S n) log
        | Some f =>
          let log' := log ++ [callback_kwargs s'] in
          match f (callback_kwargs s') with
          | Raise e => (log', Some (Raise e))
          | Ok _ => register_loop fuel' cb s' (S n) log'
          end
        end
      end
    else (log, Some (Ok (s, n)))
  end.

(** [EMRegistration.register] *)
Definition register (fuel : nat) (cb : callback) (s : EMRegistration T)
  : run (outcome T params) :=
  match transform_point_cloud s with
  | Raise e => ([], Some (Raise e))
  | Ok s0 =>
    match register_loop fuel cb s0 O [] with
    | (log, None) => (log, None)
    | (log, Some (Raise e)) => (log, Some (Raise e))
    | (log, Some (Ok (s', n))) =>
      (log,
       Some (p <- get_registration_parameters s' ;;
             Ok {| final := s'; iterations := n;
                   returned := (get_transformed_points s', p) |}))
    end
  end.

(** The engine after [k] passes through the loop body. *)
Fixpoint iterate_n (k : nat) (s : EMRegistration T)
  : result (EMRegistration T) :=
  match k with
  | O => Ok s
  | S k' => s' <- iterate s ;; iterate_n k' s'
  end.

End Register.

(** ** The affine transform model *)

Module Affine.

(** The attributes [AffineRegistration] adds.  [t] holds the [D] entries
    of the translation, which the source keeps as a [1xD] array at first
    and as a one-dimensional array after the first update.  [X_hat], [A]
    and [YPY] are first assigned by [update_transform]. *)
Record affine : Type := {
  B : matrix;
  t : vec;
  X_hat : matrix;
  A : matrix;
  YPY : matrix
}.

Definition engine : Type := EMRegistration affine.

Section Model.

(** [xp.linalg.solve] and the repository's
    [utility.is_positive_semi_definite], which are not part of the two
    files. *)
Variable linalg_solve : matrix -> matrix -> result matrix.
Variable is_positive_semi_definite : matrix -> bool.

(** [AffineRegistration.__init__]; [is not] on the small integers
    compared here is inequality. *)
Definition init (Barg targ : option ndarray) (a : init_args)
  : result (engine * list warning) :=
  sw <- EMRegistration_init a ;;
  let s := fst sw in
  raise_if
    (match Barg with
     | None => false
     | Some Bm =>
       negb (Nat.eqb (ndim Bm) 2)
       || negb (shape_eqb (shape Bm) [D s; D s])
       || negb (is_positive_semi_definite (rows_of Bm))
     end) ValueError ;;;
  raise_if
    (match targ with
     | None => false
     | Some tm =>
       negb (Nat.eqb (ndim tm) 2)
       || negb (shape_eqb (shape tm) [1%nat; D s])
     end) ValueError ;;;
  let Bv := match Barg with
            | None => identity (D s)
            | Some Bm => rows_of Bm
            end in
  let tv := match targ with
            | None => zeros (D s)
            | Some tm => concat (rows_of tm)
            end in
  Ok (set_model {| B := Bv; t := tv; X_hat := []; A := []; YPY := [] |} s,
      snd sw).

(** [AffineRegistration.update_transform] *)
Definition update_transform (s : engine) : result engine :=
  let Dn := D s in
  let rows := (N s + K s)%nat in
  let muX := map (fun v => v / Np_with_landmarks s)
                 (sum_axis0 Dn (PX s)) in
  let muY := map (fun v => v / Np_with_landmarks s)
                 (sum_axis0 Dn (dot Dn (transpose rows (P s))
                                    (Y_points_and_landmarks s))) in
  let X_hat := mat_zip Rminus (X_points_and_landmarks s)
                       (tile muX (N s + K s)) in
  let Y_hat := mat_zip Rminus (Y_points_and_landmarks s)
                       (tile muY (M s + K s)) in
  let A := dot (M s + K s) (transpose Dn X_hat) (transpose rows (P s)) in
  let A := dot Dn A Y_hat in
  let YPY := dot (length (P1 s)) (transpose Dn Y_hat) (diag (P1 s)) in
  let YPY := dot Dn YPY Y_hat in
  Bv <- linalg_solve (transpose Dn YPY) (transpose Dn A) ;;
  let tv := zipWith Rminus muX (dot_vec (transpose Dn Bv) muY) in
  Ok (set_model {| B := Bv; t := tv; X_hat := X_hat; A := A; YPY := YPY |}
                s).

(** [AffineRegistration.transform_point_cloud] *)
Definition transform_point_cloud (s : engine) : result engine :=
  Ok (set_TY (mat_zip Rplus
                      (dot (D s) (Y_points_and_landmarks s) (B (model s)))
                      (tile (t (model s)) (M s + K s)))
             s).

(** The value [update_variance] computes before the floor, when the
    divisor [Np_without_landmarks * D] is not zero. *)
Definition variance_estimate (s : engine) : R :=
  let TYM := firstn (M s) (TY_points_and_landmarks s) in
  let xPx := vdot (firstn (N s) (Pt1 s))
                  (sum_axis1 (mat_zip Rmult (X_points s) (X_points s))) in
  let yPy := vdot (firstn (M s) (P1 s))
                  (sum_axis1 (mat_zip Rmult TYM TYM)) in
  let trPXY := sum_all (mat_zip Rmult TYM (firstn (M s) (PX s))) in
  (xPx - 2 * trPXY + yPy) / (Np_without_landmarks s * INR (D s)).

(** [AffineRegistration.update_variance].  With the divisor
    [Np_without_landmarks * D] at zero the quotient is [inf] or [nan],
    and so is the floor [tolerance / 10] when the tolerance is. *)
Definition update_variance (s : engine) : result engine :=
  let qprev := sigma2 s in
  let qv := Inf in
  if Req_dec_T (Np_without_landmarks s * INR (D s)) 0 then Raise NonFinite
  else
    let s2 := variance_estimate s in
    s2 <- (if Rle_dec s2 0 then real_attr (ereal_div (tolerance s) 10)
           else Ok s2) ;;
    Ok (set_variance qv s2 (Fin (Rabs (s2 - qprev))) s).

(** [AffineRegistration.get_registration_parameters] *)
Definition get_registration_parameters (s : engine)
  : result (matrix * vec) :=
  let Bv := B (model s) in
  let tv := t (model s) in
  if normalize s then
    let env := normalize_params s in
    let Bv := mat_map (fun v => v * X_scale env / Y_scale env) Bv in
    let tv := zipWith Rminus
                      (zipWith Rplus (map (fun v => v * X_scale env) tv)
                               (X_mean env))
                      (dot_vec (transpose (D s) Bv) (Y_mean env)) in
    Ok (Bv, tv)
  else Ok (Bv, tv).

(** [AffineRegistration.get_transformation_function] *)
Definition get_transformation_function (s : engine)
  : result (matrix -> matrix) :=
  Bt <- get_registration_parameters s ;;
  Ok (fun Y => mat_zip Rplus (dot (D s) Y (fst Bt))
                       (tile (snd Bt) (length Y))).

(** The methods of the class, in the order of [TransformModel];
    [update_hyperparameters] is inherited. *)
Definition affine_model : TransformModel affine :=
  Build_TransformModel affine (matrix * vec)
                       (fun s => Ok s)
                       update_transform
                       transform_point_cloud
                       update_variance
                       get_registration_parameters.

End Model.

End Affine.

(** ** Inputs used in the examples *)

(** the four corners of the unit square *)
Definition square : matrix := [[0; 0]; [1; 0]; [1; 1]; [0; 1]].

(** two of the corners, as landmarks *)
Definition corners : matrix := [[0; 0]; [1; 1]].

(** [EMRegistration(X=square, Y=square)]: every optional argument left at
    its default [None]. *)
Definition plain_args : init_args :=
  {| arg_X := ArgArray (Nd2 2 square);
     arg_Y := ArgArray (Nd2 2 square);
     arg_sigma2 := None;
     arg_max_iterations := PyNone;
     arg_tolerance := None;
     arg_outliers := None;
     arg_ss2 := None;
     arg_X_landmarks := ArgNone;
     arg_Y_landmarks := ArgNone;
     arg_normalize := None;
     arg_normalize_joint := None;
     arg_verbose := None;
     arg_force_max_iterations := None |}.

(** the same call with [max_iterations] and the two landmark arrays given *)
Definition guided_args (cap : pyobj) : init_args :=
  {| arg_X := ArgArray (Nd2 2 square);
     arg_Y := ArgArray (Nd2 2 square);
     arg_sigma2 := None;
     arg_max_iterations := cap;
     arg_tolerance := None;
     arg_outliers := None;
     arg_ss2 := None;
     arg_X_landmarks := ArgArray (Nd2 2 corners);
     arg_Y_landmarks := ArgArray (Nd2 2 corners);
     arg_normalize := None;
     arg_normalize_joint := None;
     arg_verbose := None;
     arg_force_max_iterations := None |}.

(** [a] with another value for [max_iterations] *)
Definition with_max_iterations (cap : pyobj) (a : init_args) : init_args :=
  {| arg_X := arg_X a;
     arg_Y := arg_Y a;
     arg_sigma2 := arg_sigma2 a;
     arg_max_iterations := cap;
     arg_tolerance := arg_tolerance a;
     arg_outliers := arg_outliers a;
     arg_ss2 := arg_ss2 a;
     arg_X_landmarks := arg_X_landmarks a;
     arg_Y_landmarks := arg_Y_landmarks a;
     arg_normalize := arg_normalize a;
     arg_normalize_joint := arg_normalize_joint a;
     arg_verbose := arg_verbose a;
     arg_force_max_iterations := arg_force_max_iterations a |}.

(** Rounding to the nearest integer, halves upward: what "rounded to an
    integer" asks of the stored cap. *)
Definition round_nearest (x : Q) : Z := Qfloor (x + (1 # 2)).

(** One row of the guarded denominator: entry [j] is the sum of column
    [j] of the kernel plus [c], or the machine epsilon when that is zero. *)
Definition denominator_row {T : Type} (s : EMRegistration T) (c : R) : vec :=
  map guard_zero
      (map (fun v => v + c) (sum_axis0 (length (X_points s)) (kernel s))).

(** The block [P[:M, :N]] of a matrix and the block [P[M:, N:]]. *)
Definition non_landmark_block {T : Type} (s : EMRegistration T) (Pm : matrix)
  : matrix :=
  map (firstn (N s)) (firstn (M s) Pm).

Definition landmark_sub_block {T : Type} (s : EMRegistration T) (Pm : matrix)
  : matrix :=
  map (skipn (N s)) (skipn (M s) Pm).

(** The arrays have the extents the counts announce: [N] target points and
    at least [M] rows in the transformed cloud. *)
Definition well_shaped {T : Type} (s : EMRegistration T) : Prop :=
  length (X_points s) = N s
  /\ (M s <= length (TY_points_and_landmarks s))%nat.



(** A cap is set and [force_max_iterations] is on. *)
Definition forced {T : Type} (s : EMRegistration T) : Prop :=
  max_iterations s <> None /\ force_max_iterations s = true.



(** [xp.linalg.solve] on systems with one unknown, for examples in one
    dimension. *)
Definition solve_1x1 (a b : matrix) : result matrix :=
  match a, b with
  | [[x]], [row] =>
    if Req_dec_T x 0 then Raise LinAlgError
    else Ok [map (fun v => v / x) row]
  | _, _ => Raise LinAlgError
  end.

(** An affine engine in one dimension as the expectation step leaves it
    when every target point is the point 1 and the transform has carried
    every source point there: two points and one landmark on each side. *)
Definition collapsed_engine (tol : R) (cap : option Z) (force : bool)
  : Affine.engine :=
  {| verbose := false;
     landmark_guided := true;
     X_points := [[1]; [1]];
     Y_points := [[0]; [1]];
     N := 2;
     D := 1;
     M := 2;
     ss2 := 1 / 10;
     K := 1;
     X_landmarks := [[1]];
     Y_landmarks := [[0]];
     X_points_and_landmarks := [[1]; [1]; [1]];
     Y_points_and_landmarks := [[0]; [1]; [0]];
     TY_points_and_landmarks := [[1]; [1]; [1]];
     normalize := true;
     normalize_joint := false;
     normalize_params :=
       {| X_mean := [0]; Y_mean := [0]; X_scale := 1; Y_scale := 1 |};
     normalize_fncts :=
       {| X_mean := [0]; Y_mean := [0]; X_scale := 1; Y_scale := 1 |};
     max_iterations := cap;
     force_max_iterations := force;
     iteration := 0%Z;
     diff := Inf;
     tolerance := Fin tol;
     outliers := 0;
     sigma2 := 1;
     q := Inf;
     P := [[1 / 2; 1 / 2; 0]; [1 / 2; 1 / 2; 0]; [0; 0; 10]];
     Pt1 := [1; 1; 10];
     P1 := [1; 1; 10];
     PX := [[1]; [1]; [10]];
     Np_with_landmarks := 12;
     Np_without_landmarks := 2;
     model := {| Affine.B := [[0]]; Affine.t := [1]; Affine.X_hat := [];
                 Affine.A := []; Affine.YPY := [] |} |}.

(** Every row of [A] has [c] entries: [A] is an array of shape
    [(len A, c)]. *)
Definition rect (c : nat) (A : matrix) : Prop :=
  Forall (fun row => length row = c) A.

(** A two-dimensional argument whose rows have the length its shape
    announces, as every NumPy array has. *)
Definition arg_rect (x : pyarg) : Prop :=
  match asarray x with
  | Nd2 c rows => rect c rows
  | _ => True
  end.

(** The number of landmark rows and columns of the stored [P]. *)
Definition landmark_extent {T : Type} (s : EMRegistration T) : nat :=
  if landmark_guided s then K s else 0%nat.

(** A call in one dimension with joint normalization: the clouds [0, 2]
    and the landmark 0 on each side. *)
Definition joint_args : init_args :=
  {| arg_X := ArgArray (Nd2 1 [[0]; [2]]);
     arg_Y := ArgArray (Nd2 1 [[0]; [2]]);
     arg_sigma2 := None;
     arg_max_iterations := PyNone;
     arg_tolerance := None;
     arg_outliers := None;
     arg_ss2 := None;
     arg_X_landmarks := ArgArray (Nd2 1 [[0]]);
     arg_Y_landmarks := ArgArray (Nd2 1 [[0]]);
     arg_normalize := Some true;
     arg_normalize_joint := Some true;
     arg_verbose := None;
     arg_force_max_iterations := None |}.

(** An engine in one dimension before normalization: the clouds [0, 2]
    and the landmark 0 on each side, to be normalized separately. *)
Definition spread_engine : Affine.engine :=
  assign_normalization (collapsed_engine 0 None false)
                       unset_params unset_params
                       [[0]; [2]] [[0]] [[0]; [2]; [0]]
                       [[0]; [2]] [[0]] [[0]; [2]; [0]]
                       [[0]; [2]; [0]].

(** The landmark-guided call on [square] and [corners] with the float
    hyper-parameters, the cap and the force flag given. *)
Definition tuned_args (s2 tol w ss : option ereal) (cap : pyobj)
           (force : option bool) : init_args :=
  {| arg_X := ArgArray (Nd2 2 square);
     arg_Y := ArgArray (Nd2 2 square);
     arg_sigma2 := s2;
     arg_max_iterations := cap;
     arg_tolerance := tol;
     arg_outliers := w;
     arg_ss2 := ss;
     arg_X_landmarks := ArgArray (Nd2 2 corners);
     arg_Y_landmarks := ArgArray (Nd2 2 corners);
     arg_normalize := None;
     arg_normalize_joint := None;
     arg_verbose := None;
     arg_force_max_iterations := force |}.

(** An engine in one dimension whose two frames differ: the target's has
    the mean 3 and the scale 2, the source's the mean 5 and the scale 7;
    the transformed cloud is [1/2, 1, 3/2] in normalized coordinates. *)
Definition framed_engine : Affine.engine :=
  assign_normalization
    (collapsed_engine 0 None false)
    {| X_mean := [3]; Y_mean := [5]; X_scale := 2; Y_scale := 7 |}
    {| X_mean := [3]; Y_mean := [5]; X_scale := 2; Y_scale := 7 |}
    [[1]; [1]] [[1]] [[1]; [1]; [1]]
    [[0]; [1]] [[0]] [[0]; [1]; [0]]
    [[1 / 2]; [1]; [3 / 2]].


(** ** One column of the expectation step in binary64 *)

(** Column [n] of [P] as the program computes it, in IEEE binary64, from
    column [n] of the kernel [exp(-P / (2 * sigma2))] and the constant
    [c]: [xp.sum(., axis=0)] adds the rows in their order; a zero
    denominator becomes [xp.finfo(float).eps], the distance from 1.0 to
    the next float; [xp.pad] appends [k] zeros below; [Pt1[n]] is the sum
    of the column. *)
Module Binary64.

Definition eps : PrimFloat.float :=
  PrimFloat.sub (PrimFloat.next_up PrimFloat.one) PrimFloat.one.

Definition sum (v : list PrimFloat.float) : PrimFloat.float :=
  fold_left PrimFloat.add v PrimFloat.zero.

Definition denominator (kernel_col : list PrimFloat.float)
           (c : PrimFloat.float) : PrimFloat.float :=
  let den := PrimFloat.add (sum kernel_col) c in
  if PrimFloat.eqb den PrimFloat.zero then eps else den.



End Binary64.

(** * Properties *)

(** ** Construction *)

Lemma bind_Ok {A B : Type} (c : result A) (k : A -> result B) (b : B) :
  bind c k = Ok b -> exists a, c = Ok a /\ k a = Ok b.
Proof.
  destruct c as [a | e]; simpl; intros H.
  - exists a. split; [reflexivity | exact H].
  - discriminate H.
Qed.

Lemma raise_if_Ok (cond : bool) (e : exn) (u : unit) :
  raise_if cond e = Ok u -> cond = false.
Proof.
  destruct cond; simpl; intros H; [discriminate H | reflexivity].
Qed.

(** C1, on the code: the call [EMRegistration(X=square, Y=square)], both
    landmark arrays left at [None], does not build an unguided engine with
    [K = 0]: [xp.asarray(None)] is a zero-dimensional array, not [None],
    and reading [shape[0]] of it raises [IndexError]. *)
Theorem init_without_landmarks_raises :
  EMRegistration_init plain_args = Raise IndexError.
Proof. reflexivity. Qed.

(** No call that leaves [X_landmarks] at [None] returns an engine. *)
Lemma init_none_landmarks_never_ok (a : init_args) :
  arg_X_landmarks a = ArgNone ->
  forall r, EMRegistration_init a <> Ok r.
Proof.
  intros HX r Hinit.
  unfold EMRegistration_init in Hinit.
  rewrite HX in Hinit. simpl asarray in Hinit.
  do 10 (apply bind_Ok in Hinit; destruct Hinit as [? [_ Hinit]]).
  simpl in Hinit. discriminate Hinit.
Qed.

(** On a non-negative value truncation toward zero is the floor. *)
Lemma Qtrunc_nonneg (x : Q) : (0 <= x)%Q -> Qtrunc x = Qfloor x.
Proof.
  intros Hx. unfold Qtrunc.
  destruct (Qlt_le_dec x 0) as [Hneg | _]; [| reflexivity].
  exfalso. apply (Qlt_not_le _ _ Hneg). exact Hx.
Qed.

Lemma check_max_iterations_float (x : Q) :
  (0 <= x)%Q ->
  check_max_iterations (PyFloat (FFin x))
  = Ok (PyInt (Qfloor x), [NonIntegerMaxIterations (PyFloat (FFin x))]).
Proof.
  intros Hx. unfold check_max_iterations. simpl.
  destruct (Qlt_le_dec x 0) as [Hneg | _].
  - exfalso. apply (Qlt_not_le _ _ Hneg). exact Hx.
  - simpl. rewrite (Qtrunc_nonneg x Hx). reflexivity.
Qed.

(** C9, as the code has it: a finite non-negative float [x] given for
    [max_iterations] is accepted whenever the other arguments are (the call
    without a cap returns an engine); one warning is issued and the cap
    stored is [int(x)], the value truncated toward zero: the integer [z]
    with [z <= x < z + 1]. *)
Theorem init_truncates_max_iterations (a : init_args) (x : Q)
        (s0 : EMRegistration unit) (w0 : list warning) :
  (0 <= x)%Q ->
  EMRegistration_init (with_max_iterations PyNone a) = Ok (s0, w0) ->
  exists s,
    EMRegistration_init (with_max_iterations (PyFloat (FFin x)) a)
    = Ok (s, [NonIntegerMaxIterations (PyFloat (FFin x))])
    /\ max_iterations s = Some (Qfloor x)
    /\ (inject_Z (Qfloor x) <= x)%Q
    /\ (x < inject_Z (Qfloor x + 1))%Q.
Proof.
  intros Hx H0.
  unfold EMRegistration_init in *.
  cbn [with_max_iterations arg_X arg_Y arg_sigma2 arg_max_iterations
       arg_tolerance arg_outliers arg_ss2 arg_X_landmarks arg_Y_landmarks
       arg_normalize arg_normalize_joint arg_verbose
       arg_force_max_iterations] in *.
  rewrite (check_max_iterations_float x Hx).
  unfold check_max_iterations in H0. cbn [given andb] in H0.
  repeat match type of H0 with
         | bind ?c _ = Ok _ =>
           destruct c eqn:?; cbn [bind] in H0 |- *; [| discriminate H0]
         end.
  (* the initial variance does not depend on the cap *)
  match goal with
  | Hs : ?c' = Ok _ |- context [bind ?c _] =>
    change c with c'; rewrite Hs; cbn [bind]
  end.
  eexists. split; [reflexivity |].
  split; [reflexivity |].
  split; [apply Qfloor_le | apply Qlt_floor].
Qed.

Lemma init_truncates_max_iterations_witness :
  (0 <= 27 # 10)%Q
  /\ exists s,
      EMRegistration_init (guided_args (PyFloat (FFin (27 # 10))))
      = Ok (s, [NonIntegerMaxIterations (PyFloat (FFin (27 # 10)))])
      /\ max_iterations s = Some (Qfloor (27 # 10))
      /\ (inject_Z (Qfloor (27 # 10)) <= 27 # 10)%Q
      /\ (27 # 10 < inject_Z (Qfloor (27 # 10) + 1))%Q.
Proof.
  assert (Hx : (0 <= 27 # 10)%Q) by (unfold Qle; simpl; lia).
  split; [exact Hx |].
  eapply (init_truncates_max_iterations (guided_args PyNone) (27 # 10)).
  - exact Hx.
  - reflexivity.
Defined.

(** C9, as stated, fails: given [max_iterations=2.7] the constructor stores
    2, and 2.7 rounded to an integer is 3. *)
Lemma max_iterations_is_not_rounded :
  exists s w,
    EMRegistration_init (guided_args (PyFloat (FFin (27 # 10)))) = Ok (s, w)
    /\ max_iterations s = Some 2%Z
    /\ round_nearest (27 # 10) = 3%Z
    /\ max_iterations s <> Some (round_nearest (27 # 10)).
Proof.
  eexists. eexists. split; [reflexivity |].
  split; [reflexivity |].
  split; [reflexivity | discriminate].
Qed.

(** [max_iterations=float('inf')] is a non-negative number that is no
    [int]; the cast raises. *)
Lemma init_infinite_max_iterations_raises :
  EMRegistration_init (guided_args (PyFloat FPosInf)) = Raise OverflowError.
Proof. reflexivity. Qed.

(** ** Normalization *)

Lemma denormalize_row (mean row : vec) (scale : R) :
  scale <> 0 ->
  length row = length mean ->
  zipWith Rplus
          (map (fun v => v * scale)
               (map (fun v => v / scale) (zipWith Rminus row mean)))
          mean
  = row.
Proof.
  intros Hs. revert mean.
  induction row as [| a row IH]; intros [| m mean] Hlen; simpl in *;
    try discriminate; [reflexivity |].
  f_equal.
  - field. exact Hs.
  - apply IH. lia.
Qed.

(** C7: for either mode, with a nonzero scale and rows as long as the
    mean, the inverse map [q * scale + mean] undoes the forward map
    [(p - mean) / scale]. *)
Theorem normalize_round_trip (env : norm_env) (mode : string) (p : matrix) :
  env_scale env mode <> 0 ->
  Forall (fun row => length row = length (env_mean env mode)) p ->
  denormalize_fn env (normalize_fn env p mode false) mode = p.
Proof.
  intros Hs Hp.
  unfold denormalize_fn, normalize_fn, mat_rowop, mat_map.
  induction Hp as [| row p Hrow _ IH]; simpl; [reflexivity |].
  rewrite IH. f_equal.
  apply denormalize_row; assumption.
Qed.

Lemma normalize_round_trip_witness :
  env_scale {| X_mean := [1; 2]; Y_mean := [0; 0]; X_scale := 2; Y_scale := 1 |}
            "X" <> 0
  /\ Forall (fun row => length row
                        = length (env_mean {| X_mean := [1; 2]; Y_mean := [0; 0];
                                              X_scale := 2; Y_scale := 1 |} "X"))
            square
  /\ denormalize_fn {| X_mean := [1; 2]; Y_mean := [0; 0];
                       X_scale := 2; Y_scale := 1 |}
                    (normalize_fn {| X_mean := [1; 2]; Y_mean := [0; 0];
                                     X_scale := 2; Y_scale := 1 |}
                                  square "X" false) "X"
     = square.
Proof.
  assert (Hs : env_scale {| X_mean := [1; 2]; Y_mean := [0; 0];
                            X_scale := 2; Y_scale := 1 |} "X" <> 0)
    by (unfold env_scale; simpl; lra).
  assert (Hp : Forall (fun row => length row
                        = length (env_mean {| X_mean := [1; 2]; Y_mean := [0; 0];
                                              X_scale := 2; Y_scale := 1 |} "X"))
            square)
    by (repeat constructor).
  split; [exact Hs |].
  split; [exact Hp |].
  exact (normalize_round_trip _ "X" square Hs Hp).
Defined.

(** C6: with normalization on, [get_transformed_points] is the first [M]
    rows of the transformed cloud mapped by [q * X_scale + X_mean], the
    target's scale and mean. *)
Theorem get_transformed_points_target_frame {T : Type} (s : EMRegistration T) :
  normalize s = true ->
  get_transformed_points s
  = mat_rowop Rplus
              (mat_map (fun v => v * X_scale (normalize_fncts s))
                       (firstn (M s) (TY_points_and_landmarks s)))
              (X_mean (normalize_fncts s)).
Proof.
  intros Hn. unfold get_transformed_points. rewrite Hn. reflexivity.
Qed.

(** ** Lists, sums and element-wise operations *)

Lemma zipWith_length {A B C : Type} (f : A -> B -> C) (l1 : list A)
      (l2 : list B) :
  length (zipWith f l1 l2) = Nat.min (length l1) (length l2).
Proof.
  revert l2. induction l1 as [| a l1 IH]; intros [| b l2]; simpl;
    try reflexivity.
  rewrite IH. reflexivity.
Qed.

Lemma zipWith_repeat {A B C : Type} (f : A -> B -> C) (l : list A) (b : B)
      (n : nat) :
  (length l <= n)%nat ->
  zipWith f l (repeat b n) = map (fun a => f a b) l.
Proof.
  revert n. induction l as [| a l IH]; intros [| n] Hn; simpl in *;
    try reflexivity; try lia.
  rewrite IH by lia. reflexivity.
Qed.

Lemma zipWith_nth {A B C : Type} (f : A -> B -> C) (l1 : list A)
      (l2 : list B) (i : nat) (da : A) (db : B) (dc : C) :
  (i < length l1)%nat -> (i < length l2)%nat ->
  nth i (zipWith f l1 l2) dc = f (nth i l1 da) (nth i l2 db).
Proof.
  revert l2 i. induction l1 as [| a l1 IH]; intros [| b l2] [| i] H1 H2;
    simpl in *; try lia; try reflexivity.
  apply IH; lia.
Qed.

Lemma zipWith_Forall {A B C : Type} (f : A -> B -> C) (PA : A -> Prop)
      (PB : B -> Prop) (PC : C -> Prop) (l1 : list A) (l2 : list B) :
  (forall a b, PA a -> PB b -> PC (f a b)) ->
  Forall PA l1 -> Forall PB l2 -> Forall PC (zipWith f l1 l2).
Proof.
  intros Hf H1. revert l2.
  induction H1 as [| a l1 Ha _ IH]; intros l2 H2; simpl; [constructor |].
  destruct H2 as [| b l2 Hb H2]; constructor.
  - apply Hf; assumption.
  - apply IH. exact H2.
Qed.

Lemma sum_nonneg (l : vec) : Forall (fun v => 0 <= v) l -> 0 <= sum l.
Proof.
  induction 1 as [| v l Hv _ IH]; simpl; lra.
Qed.

Lemma sum_map_div (l : vec) (g : R) :
  sum (map (fun v => v / g) l) = sum l / g.
Proof.
  induction l as [| v l IH]; simpl.
  - unfold Rdiv. ring.
  - rewrite IH. unfold Rdiv. ring.
Qed.

Lemma map_repeat {A B : Type} (f : A -> B) (a : A) (n : nat) :
  map f (repeat a n) = repeat (f a) n.
Proof.
  induction n as [| n IH]; simpl; [reflexivity | rewrite IH; reflexivity].
Qed.

Lemma Forall_repeat {A : Type} (PA : A -> Prop) (a : A) (n : nat) :
  PA a -> Forall PA (repeat a n).
Proof.
  intros Ha. induction n as [| n IH]; simpl; constructor; assumption.
Qed.

Lemma Forall_firstn {A : Type} (PA : A -> Prop) (n : nat) (l : list A) :
  Forall PA l -> Forall PA (firstn n l).
Proof.
  intros H. revert n. induction H as [| a l Ha _ IH]; intros [| n]; simpl;
    constructor; auto.
Qed.

Lemma Forall_skipn {A : Type} (PA : A -> Prop) (n : nat) (l : list A) :
  Forall PA l -> Forall PA (skipn n l).
Proof.
  intros H. revert n. induction H as [| a l Ha Hl IH]; intros [| n]; simpl;
    auto.
Qed.

(** ** The expectation step *)

Lemma eps_pos : 0 < eps.
Proof.
  unfold eps. apply Rinv_0_lt_compat. apply pow_lt. lra.
Qed.

Lemma guard_zero_nonzero (d : R) : guard_zero d <> 0.
Proof.
  unfold guard_zero. destruct (Req_dec_T d 0) as [_ | Hd].
  - pose proof eps_pos. lra.
  - exact Hd.
Qed.

Lemma guard_zero_pos (d : R) : 0 <= d -> 0 < guard_zero d.
Proof.
  intros Hd. unfold guard_zero. destruct (Req_dec_T d 0) as [_ | Hn].
  - apply eps_pos.
  - lra.
Qed.

(** C8: whatever the engine and the constant [c] are, no entry of the
    denominator the kernel is divided by is zero: an entry that is zero is
    replaced by the machine epsilon, which is positive. *)
Theorem expectation_denominator_nonzero {T : Type} (s : EMRegistration T)
        (c : R) :
  Forall (Forall (fun d => d <> 0)) (denominator s c)
  /\ 0 < eps
  /\ forall d, (d = 0 -> guard_zero d = eps) /\ (d <> 0 -> guard_zero d = d).
Proof.
  split; [| split].
  - unfold denominator, mat_map, tile.
    rewrite map_repeat. apply Forall_repeat.
    rewrite Forall_forall. intros d Hd.
    apply in_map_iff in Hd. destruct Hd as [d0 [Hd0 _]].
    subst d. apply guard_zero_nonzero.
  - exact eps_pos.
  - intros d. unfold guard_zero.
    destruct (Req_dec_T d 0) as [Hz | Hn]; split; intros H;
      try reflexivity; contradiction.
Qed.

Section ExpectationFacts.

Context {T : Type}.
Variable s : EMRegistration T.

Lemma kernel_length : (length (kernel s) <= M s)%nat.
Proof.
  unfold kernel. rewrite length_map. apply firstn_le_length.
Qed.

Lemma kernel_length_shaped : well_shaped s -> length (kernel s) = M s.
Proof.
  intros [_ HM]. unfold kernel. rewrite length_map.
  apply firstn_length_le. exact HM.
Qed.

Lemma kernel_rows :
  Forall (fun krow => length krow = length (X_points s)
                      /\ Forall (fun v => 0 < v) krow)
         (kernel s).
Proof.
  unfold kernel. rewrite Forall_forall. intros krow Hin.
  apply in_map_iff in Hin. destruct Hin as [y [Hy _]]. subst krow.
  split; [apply length_map |].
  rewrite Forall_forall. intros v Hv.
  apply in_map_iff in Hv. destruct Hv as [x [Hx _]]. subst v.
  apply exp_pos.
Qed.

Lemma kernel_col_nonneg (j : nat) :
  Forall (fun v => 0 <= v) (col j (kernel s)).
Proof.
  unfold col. rewrite Forall_forall. intros v Hv.
  apply in_map_iff in Hv. destruct Hv as [krow [Hv Hin]]. subst v.
  pose proof kernel_rows as Hrows. rewrite Forall_forall in Hrows.
  destruct (Hrows krow Hin) as [_ Hpos].
  destruct (nth_in_or_default j krow 0) as [Hnth | Hdef].
  - rewrite Forall_forall in Hpos. apply Rlt_le. apply Hpos. exact Hnth.
  - rewrite Hdef. lra.
Qed.

Lemma denominator_rows (c : R) :
  denominator s c = repeat (denominator_row s c) (M s).
Proof.
  unfold denominator, denominator_row, mat_map, tile.
  apply map_repeat.
Qed.

Lemma denominator_row_length (c : R) :
  length (denominator_row s c) = length (X_points s).
Proof.
  unfold denominator_row, sum_axis0.
  rewrite !length_map. apply length_seq.
Qed.

Lemma denominator_row_nth (c : R) (j : nat) :
  (j < length (X_points s))%nat ->
  nth j (denominator_row s c) 0
  = guard_zero (sum (col j (kernel s)) + c).
Proof.
  intros Hj. unfold denominator_row, sum_axis0.
  rewrite !map_map.
  rewrite (nth_indep _ 0 (guard_zero (sum (col 0 (kernel s)) + c)))
    by (rewrite length_map, length_seq; exact Hj).
  rewrite (map_nth (fun x => guard_zero (sum (col x (kernel s)) + c))
                   (seq 0 (length (X_points s))) 0%nat j).
  rewrite seq_nth by exact Hj. reflexivity.
Qed.

Lemma denominator_row_pos (c : R) :
  0 <= c -> Forall (fun d => 0 < d) (denominator_row s c).
Proof.
  intros Hc. unfold denominator_row, sum_axis0. rewrite !map_map.
  rewrite Forall_forall. intros d Hd.
  apply in_map_iff in Hd. destruct Hd as [j [Hd _]]. subst d.
  apply guard_zero_pos.
  pose proof (sum_nonneg _ (kernel_col_nonneg j)). lra.
Qed.

(** The quotient [xp.divide(P, den)], row by row. *)
Lemma quotient_rows (c : R) :
  mat_zip Rdiv (kernel s) (denominator s c)
  = map (fun krow => zipWith Rdiv krow (denominator_row s c)) (kernel s).
Proof.
  unfold mat_zip. rewrite denominator_rows.
  apply zipWith_repeat. apply kernel_length.
Qed.

Lemma quotient_nonneg (c : R) :
  0 <= c ->
  Forall (Forall (fun v => 0 <= v)) (mat_zip Rdiv (kernel s) (denominator s c)).
Proof.
  intros Hc. rewrite quotient_rows.
  rewrite Forall_forall. intros row Hrow.
  apply in_map_iff in Hrow. destruct Hrow as [krow [Hrow Hin]]. subst row.
  pose proof kernel_rows as Hrows. rewrite Forall_forall in Hrows.
  destruct (Hrows krow Hin) as [_ Hpos].
  apply (zipWith_Forall Rdiv (fun v => 0 < v) (fun d => 0 < d)).
  - intros a b Ha Hb. apply Rlt_le. apply Rdiv_lt_0_compat; assumption.
  - exact Hpos.
  - apply denominator_row_pos. exact Hc.
Qed.

Lemma quotient_row_length (c : R) :
  Forall (fun row => length row = length (X_points s))
         (mat_zip Rdiv (kernel s) (denominator s c)).
Proof.
  rewrite quotient_rows. rewrite Forall_forall. intros row Hrow.
  apply in_map_iff in Hrow. destruct Hrow as [krow [Hrow Hin]]. subst row.
  pose proof kernel_rows as Hrows. rewrite Forall_forall in Hrows.
  destruct (Hrows krow Hin) as [Hlen _].
  rewrite zipWith_length, denominator_row_length, Hlen.
  apply Nat.min_id.
Qed.

(** Column [j] of the quotient is column [j] of the kernel over the
    denominator of that column. *)
Lemma quotient_col (c : R) (j : nat) :
  (j < length (X_points s))%nat ->
  col j (mat_zip Rdiv (kernel s) (denominator s c))
  = map (fun v => v / guard_zero (sum (col j (kernel s)) + c))
        (col j (kernel s)).
Proof.
  intros Hj. rewrite quotient_rows. unfold col. rewrite !map_map.
  apply map_ext_in. intros krow Hin.
  pose proof kernel_rows as Hrows. rewrite Forall_forall in Hrows.
  destruct (Hrows krow Hin) as [Hlen _].
  rewrite (zipWith_nth Rdiv krow (denominator_row s c) j 0 0 0).
  - rewrite denominator_row_nth by exact Hj. reflexivity.
  - rewrite Hlen. exact Hj.
  - rewrite denominator_row_length. exact Hj.
Qed.

Lemma quotient_col_sum (c : R) (j : nat) :
  0 <= c ->
  (j < length (X_points s))%nat ->
  sum (col j (mat_zip Rdiv (kernel s) (denominator s c))) <= 1.
Proof.
  intros Hc Hj. rewrite quotient_col by exact Hj. rewrite sum_map_div.
  pose proof (sum_nonneg _ (kernel_col_nonneg j)) as HS.
  set (S := sum (col j (kernel s))) in *.
  unfold guard_zero. destruct (Req_dec_T (S + c) 0) as [Hz | Hn].
  - assert (S = 0) by lra. subst S. rewrite H.
    unfold Rdiv. rewrite Rmult_0_l. lra.
  - apply (Rmult_le_reg_r (S + c)); [lra |].
    unfold Rdiv. rewrite Rmult_assoc, Rinv_l by exact Hn. lra.
Qed.

Lemma outlier_constant_nonneg (c : R) :
  0 < sigma2 s -> 0 <= outliers s < 1 ->
  outlier_constant s = Ok c -> 0 <= c.
Proof.
  intros Hs2 [Hw0 Hw1]. unfold outlier_constant, py_div. intros H.
  destruct (Req_dec_T (1 - outliers s) 0) as [Hz | _]; [lra |].
  simpl in H.
  destruct (Req_dec_T (INR (N s)) 0) as [| HN]; [discriminate H |].
  injection H as <-.
  assert (Hpow : 0 < Rpower (2 * PI * sigma2 s) (INR (D s) / 2))
    by (unfold Rpower; apply exp_pos).
  assert (HN' : 0 < INR (N s)) by (pose proof (pos_INR (N s)); lra).
  pose proof (pos_INR (M s)) as HM.
  apply Rmult_le_pos; [| apply Rlt_le, Rinv_0_lt_compat; exact HN'].
  apply Rmult_le_pos; [| exact HM].
  apply Rmult_le_pos; [| apply Rlt_le, Rinv_0_lt_compat; lra].
  apply Rmult_le_pos; [apply Rlt_le; exact Hpow | exact Hw0].
Qed.

Lemma outlier_constant_total :
  N s <> 0%nat -> outliers s <> 1 -> exists c, outlier_constant s = Ok c.
Proof.
  intros HN Hw. unfold outlier_constant, py_div.
  destruct (Req_dec_T (1 - outliers s) 0) as [Hz | _]; [lra |].
  simpl.
  destruct (Req_dec_T (INR (N s)) 0) as [Hz | _].
  - exfalso. apply HN. apply INR_eq. exact Hz.
  - eexists. reflexivity.
Qed.

End ExpectationFacts.

Lemma zipWith_repeat_l {A B C : Type} (f : A -> B -> C) (a : A) (l : list B)
      (n : nat) :
  (length l <= n)%nat ->
  zipWith f (repeat a n) l = map (f a) l.
Proof.
  revert n. induction l as [| b l IH]; intros [| n] Hn; simpl in *;
    try reflexivity; try lia.
  rewrite IH by lia. reflexivity.
Qed.

Lemma firstn_repeat_add {A : Type} (a : A) (n k : nat) :
  firstn n (repeat a (n + k)) = repeat a n.
Proof.
  induction n as [| n IH]; simpl; [reflexivity | rewrite IH; reflexivity].
Qed.

Lemma firstn_app_length {A : Type} (l1 l2 : list A) :
  firstn (length l1) (l1 ++ l2) = l1.
Proof.
  induction l1 as [| a l1 IH]; simpl; [reflexivity | rewrite IH; reflexivity].
Qed.

Lemma skipn_app_length {A : Type} (l1 l2 : list A) :
  skipn (length l1) (l1 ++ l2) = l2.
Proof.
  induction l1 as [| a l1 IH]; simpl; [reflexivity | exact IH].
Qed.

Lemma identity_length (n : nat) : length (identity n) = n.
Proof.
  unfold identity. rewrite length_map. apply length_seq.
Qed.


Section StoredP.

Context {T : Type}.
Variable s : EMRegistration T.
Hypothesis Hshape : well_shaped s.

Lemma landmark_block_length : length (landmark_block s) = K s.
Proof.
  unfold landmark_block, mat_map. rewrite length_map. apply identity_length.
Qed.

(** The stored matrix of a landmark-guided engine: the quotient padded
    on the right, above the landmark block padded on the left. *)
Lemma guided_P (c : R) :
  landmark_guided s = true ->
  expectation_P s c
  = map (fun row => row ++ zeros (K s))
        (mat_zip Rdiv (kernel s) (denominator s c))
    ++ map (fun brow => zeros (N s) ++ brow) (landmark_block s).
Proof.
  intros Hg. unfold expectation_P. rewrite Hg.
  destruct Hshape as [HN HM].
  set (Pm := mat_zip Rdiv (kernel s) (denominator s c)).
  assert (HPm : length Pm = M s).
  { unfold Pm. rewrite quotient_rows, length_map.
    apply kernel_length_shaped. exact Hshape. }
  unfold assign_block, pad. rewrite HN.
  assert (Hrows : length (map (fun row => row ++ zeros (K s)) Pm) = M s)
    by (rewrite length_map; exact HPm).
  rewrite <- Hrows at 1 2.
  rewrite firstn_app_length, skipn_app_length.
  f_equal. unfold zeros2.
  rewrite zipWith_repeat_l
    by (apply Nat.eq_le_incl; exact landmark_block_length).
  apply map_ext. intros brow. unfold zeros.
  rewrite firstn_repeat_add. reflexivity.
Qed.

Lemma stored_landmark_block (c : R) :
  landmark_guided s = true ->
  landmark_sub_block s (expectation_P s c) = landmark_block s.
Proof.
  intros Hg. rewrite (guided_P c Hg). unfold landmark_sub_block.
  set (Pm := mat_zip Rdiv (kernel s) (denominator s c)).
  assert (HPm : length (map (fun row => row ++ zeros (K s)) Pm) = M s).
  { unfold Pm. rewrite length_map, quotient_rows, length_map.
    apply kernel_length_shaped. exact Hshape. }
  rewrite <- HPm at 1. rewrite skipn_app_length.
  rewrite map_map. rewrite <- (map_id (landmark_block s)) at 2.
  apply map_ext. intros brow.
  assert (HZ : length (zeros (N s)) = N s) by apply repeat_length.
  rewrite <- HZ at 1. apply skipn_app_length.
Qed.

Lemma stored_non_landmark_block (c : R) :
  non_landmark_block s (expectation_P s c)
  = mat_zip Rdiv (kernel s) (denominator s c).
Proof.
  destruct Hshape as [HN HM].
  set (Pm := mat_zip Rdiv (kernel s) (denominator s c)).
  assert (HPm : length Pm = M s).
  { unfold Pm. rewrite quotient_rows, length_map.
    apply kernel_length_shaped. exact Hshape. }
  pose proof (quotient_row_length s c) as Hlen. fold Pm in Hlen.
  rewrite HN in Hlen.
  unfold non_landmark_block.
  destruct (landmark_guided s) eqn:Hg.
  - rewrite (guided_P c Hg). fold Pm.
    assert (Hrows : length (map (fun row => row ++ zeros (K s)) Pm) = M s)
      by (rewrite length_map; exact HPm).
    rewrite <- Hrows at 1. rewrite firstn_app_length.
    rewrite map_map. rewrite <- (map_id Pm) at 2.
    apply map_ext_in. intros row Hrow.
    rewrite Forall_forall in Hlen. rewrite <- (Hlen row Hrow).
    apply firstn_app_length.
  - unfold expectation_P. rewrite Hg. fold Pm.
    rewrite <- HPm, firstn_all.
    rewrite <- (map_id Pm) at 2.
    apply map_ext_in. intros row Hrow.
    rewrite Forall_forall in Hlen. rewrite <- (Hlen row Hrow).
    apply firstn_all.
Qed.



End StoredP.

Lemma expectation_Ok {T : Type} (s s' : EMRegistration T) :
  expectation s = Ok s' ->
  exists c, outlier_constant s = Ok c /\ P s' = expectation_P s c.
Proof.
  unfold expectation. intros H.
  apply bind_Ok in H. destruct H as [c [Hc H]].
  exists c. split; [exact Hc |].
  injection H as <-. reflexivity.
Qed.

Lemma expectation_total {T : Type} (s : EMRegistration T) :
  N s <> 0%nat -> outliers s <> 1 -> exists s', expectation s = Ok s'.
Proof.
  intros HN Hw.
  destruct (outlier_constant_total s HN Hw) as [c Hc].
  unfold expectation. rewrite Hc. simpl. eexists. reflexivity.
Qed.

(** C5: in a landmark-guided engine whose arrays have the announced
    extents, the matrix the expectation step builds has, in rows [M:] and
    columns [N:], the identity of order [K] scaled by [sigma2 / ss2],
    whatever the constant of the denominator is; the step completes
    whenever there is a target point and the outlier weight is not 1, and
    the [P] it stores has that block. *)
Theorem expectation_landmark_block {T : Type} (s : EMRegistration T) :
  landmark_guided s = true ->
  well_shaped s ->
  (forall c, landmark_sub_block s (expectation_P s c)
             = mat_map (fun v => sigma2 s / ss2 s * v) (identity (K s)))
  /\ (N s <> 0%nat -> outliers s <> 1 -> exists s', expectation s = Ok s')
  /\ forall s', expectation s = Ok s' ->
       landmark_sub_block s (P s')
       = mat_map (fun v => sigma2 s / ss2 s * v) (identity (K s)).
Proof.
  intros Hg Hshape.
  assert (Hblock : forall c,
             landmark_sub_block s (expectation_P s c)
             = mat_map (fun v => sigma2 s / ss2 s * v) (identity (K s))).
  { intros c. rewrite (stored_landmark_block s Hshape c Hg).
    unfold landmark_block, mat_map.
    apply map_ext. intros row. apply map_ext. intros v.
    unfold Rdiv. ring. }
  split; [exact Hblock |].
  split; [apply expectation_total |].
  intros s' H.
  destruct (expectation_Ok s s' H) as [c [_ HP]].
  rewrite HP. apply Hblock.
Qed.


(** ** The registration loop *)

Lemma same_control_refl {T : Type} (s : EMRegistration T) : same_control s s.
Proof. repeat split. Qed.

Lemma same_control_trans {T : Type} (s1 s2 s3 : EMRegistration T) :
  same_control s1 s2 -> same_control s2 s3 -> same_control s1 s3.
Proof.
  unfold same_control. intros [H1 [H2 [H3 H4]]] [H5 [H6 [H7 H8]]].
  repeat split; congruence.
Qed.

Lemma expectation_control {T : Type} (s s' : EMRegistration T) :
  expectation s = Ok s' -> same_control s s'.
Proof.
  unfold expectation. intros H.
  apply bind_Ok in H. destruct H as [c [_ H]].
  injection H as <-. repeat split.
Qed.



Section RegisterFacts.

Context {T : Type} `{TM : TransformModel T}.
Context {laws : ModelKeepsControl T}.

(** One pass through the loop body advances the counter by one and
    leaves the cap, the force flag and the tolerance alone. *)
Lemma iterate_control (s s' : EMRegistration T) :
  iterate s = Ok s' ->
  iteration s' = (iteration s + 1)%Z
  /\ max_iterations s' = max_iterations s
  /\ force_max_iterations s' = force_max_iterations s
  /\ tolerance s' = tolerance s.
Proof.
  unfold iterate, maximization. intros H.
  apply bind_Ok in H. destruct H as [s1 [H1 H]].
  apply bind_Ok in H. destruct H as [s2 [H2 H]].
  apply bind_Ok in H. destruct H as [s5 [H3 H]].
  apply bind_Ok in H3. destruct H3 as [s3 [H3 H4]].
  apply bind_Ok in H4. destruct H4 as [s4 [H4 H5]].
  injection H as <-.
  apply update_hyperparameters_control in H1.
  apply expectation_control in H2.
  apply update_transform_control in H3.
  apply transform_point_cloud_control in H4.
  apply update_variance_control in H5.
  pose proof (same_control_trans _ _ _ H1
               (same_control_trans _ _ _ H2
                 (same_control_trans _ _ _ H3
                   (same_control_trans _ _ _ H4 H5)))) as [Hi [Hm [Hf Ht]]].
  simpl. repeat split; congruence.
Qed.



Lemma loop_condition_capped (s : EMRegistration T) (c : Z) :
  max_iterations s = Some c ->
  loop_condition s
  = (iteration s <? c)%Z
    && (force_max_iterations s || ereal_gtb (diff s) (tolerance s)).
Proof.
  intros Hcap. unfold loop_condition. rewrite Hcap. reflexivity.
Qed.

Lemma register_Ok (fuel : nat) (cb : callback) (s : EMRegistration T)
      (out : outcome T params) :
  snd (register fuel cb s) = Some (Ok out) ->
  exists s0 log,
    transform_point_cloud s = Ok s0
    /\ register_loop fuel cb s0 0 []
       = (log, Some (Ok (final out, iterations out))).
Proof.
  unfold register. intros H.
  destruct (transform_point_cloud s) as [s0 | e]; [| discriminate H].
  destruct (register_loop fuel cb s0 0 []) as [log [[[s' n] | e] |]]
    eqn:Hloop; simpl in H; try discriminate H.
  destruct (get_registration_parameters s') as [p | e]; simpl in H;
    [| discriminate H].
  injection H as <-. simpl.
  exists s0, log. split; [reflexivity | exact Hloop].
Qed.


End RegisterFacts.

Section TerminationPolicy.

Context {T : Type} `{TM : TransformModel T}.







End TerminationPolicy.

(** ** The affine model *)

(** What [update_variance] has done when it returns. *)
Lemma affine_update_variance_Ok (s s' : Affine.engine) :
  Affine.update_variance s = Ok s' ->
  exists s2,
    s' = set_variance Inf s2 (Fin (Rabs (s2 - sigma2 s))) s
    /\ Np_without_landmarks s * INR (D s) <> 0
    /\ (0 < Affine.variance_estimate s -> s2 = Affine.variance_estimate s)
    /\ (Affine.variance_estimate s <= 0 ->
        exists t, tolerance s = Fin t /\ s2 = t / 10).
Proof.
  unfold Affine.update_variance. intros H.
  destruct (Req_dec_T (Np_without_landmarks s * INR (D s)) 0) as [Hz | Hnz];
    [discriminate H |].
  destruct (Rle_dec (Affine.variance_estimate s) 0) as [Hle | Hgt].
  - destruct (tolerance s) as [t | | |] eqn:Htol;
      cbn [ereal_div real_attr bind] in H; try discriminate H.
    injection H as <-. exists (t / 10).
    split; [reflexivity |]. split; [exact Hnz |].
    split; [intros Hpos; lra |].
    intros _. exists t. split; reflexivity.
  - cbn [bind] in H. injection H as <-.
    exists (Affine.variance_estimate s).
    split; [reflexivity |]. split; [exact Hnz |].
    split; [reflexivity |]. intros Hle. lra.
Qed.

(** [update_variance] returns when the divisor of the estimate is not
    zero and the tolerance is a real number. *)
Lemma affine_update_variance_total (s : Affine.engine) (t : R) :
  Np_without_landmarks s * INR (D s) <> 0 ->
  tolerance s = Fin t ->
  exists s2,
    Affine.update_variance s
    = Ok (set_variance Inf s2 (Fin (Rabs (s2 - sigma2 s))) s)
    /\ (0 < Affine.variance_estimate s -> s2 = Affine.variance_estimate s)
    /\ (Affine.variance_estimate s <= 0 -> s2 = t / 10).
Proof.
  intros Hnz Htol. unfold Affine.update_variance.
  destruct (Req_dec_T (Np_without_landmarks s * INR (D s)) 0) as [Hz | _];
    [contradiction |].
  rewrite Htol.
  destruct (Rle_dec (Affine.variance_estimate s) 0) as [Hle | Hgt];
    cbn [ereal_div real_attr bind].
  - exists (t / 10). split; [reflexivity |].
    split; [intros Hpos; lra | reflexivity].
  - exists (Affine.variance_estimate s). split; [reflexivity |].
    split; [reflexivity | intros Hle; lra].
Qed.

Section AffineFacts.

Variable linalg_solve : matrix -> matrix -> result matrix.

Lemma affine_keeps_control :
  @ModelKeepsControl Affine.affine (Affine.affine_model linalg_solve).
Proof.
  constructor; simpl.
  - intros s s' H. injection H as <-. apply same_control_refl.
  - intros s s' H. unfold Affine.update_transform in H.
    apply bind_Ok in H. destruct H as [Bv [_ H]].
    injection H as <-. repeat split.
  - intros s s' H. unfold Affine.transform_point_cloud in H.
    injection H as <-. repeat split.
  - intros s s' H. apply affine_update_variance_Ok in H.
    destruct H as [s2 [-> _]]. repeat split.
Qed.

Lemma affine_update_variance_q (s s' : Affine.engine) :
  Affine.update_variance s = Ok s' -> q s' = Inf.
Proof.
  intros H. apply affine_update_variance_Ok in H.
  destruct H as [s2 [-> _]]. reflexivity.
Qed.

(** Every pass through the loop body ends with [update_variance], which
    assigns [xp.inf] to [q]. *)
Lemma affine_iterate_q (s s' : Affine.engine) :
  @iterate _ (Affine.affine_model linalg_solve) s = Ok s' -> q s' = Inf.
Proof.
  unfold iterate, maximization. intros H.
  apply bind_Ok in H. destruct H as [s1 [_ H]].
  apply bind_Ok in H. destruct H as [s2 [_ H]].
  apply bind_Ok in H. destruct H as [s5 [H3 H]].
  apply bind_Ok in H3. destruct H3 as [s3 [_ H4]].
  apply bind_Ok in H4. destruct H4 as [s4 [_ H5]].
  injection H as <-. simpl.
  apply (affine_update_variance_q s4). exact H5.
Qed.

Lemma affine_loop_errors (cb : callback) (fuel : nat) :
  forall (s : Affine.engine) (n : nat) (log : list kwargs),
    Forall (fun kw => kw_error kw = Inf) log ->
    Forall (fun kw => kw_error kw = Inf)
           (fst (@register_loop _ (Affine.affine_model linalg_solve) fuel cb s n log)).
Proof.
  induction fuel as [| fuel IH]; intros s n log Hlog; simpl;
    [exact Hlog |].
  destruct (loop_condition s); [| exact Hlog].
  destruct (iterate s) as [s1 | e] eqn:Hit; [| exact Hlog].
  destruct cb as [f |]; [| apply IH; exact Hlog].
  assert (Hlog' : Forall (fun kw => kw_error kw = Inf)
                         (log ++ [callback_kwargs s1])).
  { apply Forall_app. split; [exact Hlog |].
    constructor; [| constructor].
    simpl. apply (affine_iterate_q s). exact Hit. }
  destruct (f (callback_kwargs s1)) as [u | e]; [| exact Hlog'].
  apply IH. exact Hlog'.
Qed.

(** C10: whatever the engine, the callback and the length of the run,
    every call of the callback made by [register] of an affine engine
    has [error] equal to [xp.inf]. *)
Theorem affine_callback_error_is_inf (fuel : nat) (cb : callback)
        (s : Affine.engine) :
  Forall (fun kw => kw_error kw = Inf)
         (fst (@register _ (Affine.affine_model linalg_solve) fuel cb s)).
Proof.
  unfold register.
  destruct (transform_point_cloud s) as [s0 | e]; [| constructor].
  pose proof (affine_loop_errors cb fuel s0 0%nat [] (Forall_nil _)) as H.
  destruct (register_loop fuel cb s0 0 []) as [log [[[s' n] | e] |]];
    exact H.
Qed.

(** The update leaves a positive [sigma2] whenever the tolerance is
    positive. *)
Lemma affine_update_variance_pos (s s' : Affine.engine) (t : R) :
  tolerance s = Fin t -> 0 < t ->
  Affine.update_variance s = Ok s' -> 0 < sigma2 s'.
Proof.
  intros Htol Ht H. apply affine_update_variance_Ok in H.
  destruct H as [s2 [-> [_ [Hpos Hfloor]]]]. simpl.
  destruct (Rle_dec (Affine.variance_estimate s) 0) as [Hle | Hgt].
  - destruct (Hfloor Hle) as [t' [Ht' ->]].
    rewrite Htol in Ht'. injection Ht' as <-. lra.
  - rewrite Hpos; lra.
Qed.

End AffineFacts.

Lemma collapsed_variance_estimate (tol : R) (cap : option Z) (force : bool) :
  Affine.variance_estimate (collapsed_engine tol cap force) = 0.
Proof.
  unfold Affine.variance_estimate, vdot, sum_all, sum_axis1, mat_zip, sum.
  simpl. field.
Qed.

(** The constructor's check lets the tolerance 0 through. *)
Lemma tolerance_zero_accepted :
  raise_if (given_and ltb0 (Some (Fin 0))) ValueError = Ok tt.
Proof.
  simpl. unfold ltb0, ereal_ltb.
  destruct (Rlt_dec 0 0) as [H | _]; [lra | reflexivity].
Qed.

(** C4, on the code: with the tolerance 0, which the constructor accepts,
    and an estimate that is not positive, [update_variance] stores
    [tolerance / 10 = 0]: [sigma2] is not greater than 0 afterwards. *)
Theorem update_variance_zero_tolerance :
  exists s',
    Affine.update_variance (collapsed_engine 0 None false) = Ok s'
    /\ sigma2 s' = 0
    /\ Affine.variance_estimate (collapsed_engine 0 None false) <= 0.
Proof.
  pose proof (collapsed_variance_estimate 0 None false) as Hv.
  destruct (affine_update_variance_total (collapsed_engine 0 None false) 0)
    as [s2 [Hs' [_ Hfloor]]]; [simpl; lra | reflexivity |].
  eexists. split; [exact Hs' |].
  split; [| lra].
  simpl. rewrite Hfloor by lra.
  unfold Rdiv. apply Rmult_0_l.
Qed.

(** ** Engines the constructor returns *)

Lemma normalize_fn_length (env : norm_env) (data : matrix) (mode : string)
      (invert : bool) :
  length (normalize_fn env data mode invert) = length data.
Proof.
  unfold normalize_fn, mat_rowop, mat_map.
  destruct invert; rewrite !length_map; reflexivity.
Qed.

Lemma concatenate_length (c : nat) (A0 : matrix) (b : ndarray) (r : matrix) :
  concatenate c A0 b = Ok r -> (length A0 <= length r)%nat.
Proof.
  unfold concatenate. destruct b as [| v | c' rows | n0 n1 n2 rest];
    try discriminate.
  destruct (Nat.eqb c c'); [| discriminate].
  intros H. injection H as <-. rewrite length_app. lia.
Qed.

(** The landmark checks of the constructor pass only for a landmark-guided
    call with at least one landmark. *)
Lemma landmark_checks (Xl Yl : ndarray) (g : bool) (u1 u2 : unit) :
  (if is_not_None Xl && is_not_None Yl then
     k0 <- shape_at Xl 0 ;;
     Ok (negb (Nat.eqb k0 0) && shape_eqb (shape Xl) (shape Yl))
   else Ok false) = Ok g ->
  (if is_not_None Xl then
     l <- py_len Xl ;; raise_if (Nat.eqb l 0) ValueError
   else Ok tt) = Ok u1 ->
  raise_if (is_not_None Xl && is_not_None Yl
            && negb (shape_eqb (shape Xl) (shape Yl))) ValueError = Ok u2 ->
  g = true /\ exists k, shape_at Xl 0 = Ok k /\ (1 <= k)%nat.
Proof.
  unfold is_not_None. cbn [andb]. intros Hg Hlen Hshape.
  apply raise_if_Ok in Hshape. apply negb_false_iff in Hshape.
  apply bind_Ok in Hg. destruct Hg as [k0 [Hk0 Hg]].
  apply bind_Ok in Hlen. destruct Hlen as [l [Hl Hlen]].
  apply raise_if_Ok in Hlen.
  injection Hg as <-. rewrite Hshape, andb_true_r.
  unfold shape_at in *. unfold py_len in Hl.
  destruct (shape Xl) as [| k rest]; [discriminate Hl |].
  simpl in Hk0. injection Hk0 as <-. injection Hl as <-.
  rewrite Hlen. split; [reflexivity |].
  exists k. split; [reflexivity |].
  apply Nat.eqb_neq in Hlen. lia.
Qed.

(** The last three steps of the constructor, on the record built before
    them: what they keep and what they assign. *)
Lemma init_pipeline {T : Type} (s0 : EMRegistration T) (s2 : R) :
  let s := set_variance Inf s2 Inf
                        (normalizeData (calculateNormalizationParams s0)) in
  (landmark_guided s = landmark_guided s0
   /\ N s = N s0 /\ M s = M s0 /\ D s = D s0 /\ K s = K s0)
  /\ (ss2 s = ss2 s0 /\ outliers s = outliers s0
      /\ tolerance s = tolerance s0
      /\ max_iterations s = max_iterations s0
      /\ force_max_iterations s = force_max_iterations s0)
  /\ (iteration s = iteration s0 /\ normalize s = normalize s0
      /\ diff s = Inf /\ q s = Inf /\ sigma2 s = s2)
  /\ normalize_fncts s = normalize_params s
  /\ normalize_params s = normalize_params (calculateNormalizationParams s0)
  /\ X_points s
     = normalize_fn (normalize_params s) (X_points s0) "X" false
  /\ Y_points s
     = normalize_fn (normalize_params s) (Y_points s0) "Y" false
  /\ TY_points_and_landmarks s
     = normalize_fn (normalize_params s) (TY_points_and_landmarks s0)
                    "Y" false
  /\ Y_points_and_landmarks s
     = normalize_fn (normalize_params s) (Y_points_and_landmarks s0)
                    "Y" false.
Proof.
  intros s. repeat split.
Qed.

(** Names the record the constructor builds before it normalizes. *)
Ltac name_record s0 Hs0 s2 Hs2 :=
  match goal with
  | |- context [calculateNormalizationParams ?r] => remember r as s0 eqn:Hs0
  end;
  match goal with
  | |- context [set_variance Inf ?v Inf _] => remember v as s2 eqn:Hs2
  end.

(** X16: every engine the constructor returns is landmark-guided, has
    arrays of the announced extents, closures that hold the stored
    normalization parameters, the counter at 0, and [diff] and [q] at
    [xp.inf]. *)
Lemma init_Ok (a : init_args) (s : EMRegistration unit) (w : list warning) :
  EMRegistration_init a = Ok (s, w) ->
  landmark_guided s = true
  /\ well_shaped s
  /\ (M s <= length (Y_points_and_landmarks s))%nat
  /\ normalize_fncts s = normalize_params s
  /\ iteration s = 0%Z /\ diff s = Inf /\ q s = Inf.
Proof.
  intros H. unfold EMRegistration_init in H.
  step_binds H. injection H as <- _.
  name_record s0 Hs0 s2 Hs2. clear Hs2.
  destruct (init_pipeline s0 s2)
    as [[Hg [HN [HM _]]] [_ [[Hi [_ [Hd [Hq _]]]]
         [Hf [_ [HX [_ [HT HY]]]]]]]].
  unfold well_shaped.
  rewrite Hg, HN, HM, Hi, Hd, Hq, HX, HT, HY, !normalize_fn_length.
  assert (H0 : landmark_guided s0 = a10
               /\ length (X_points s0) = N s0
               /\ M s0 = length (rows_of (asarray (arg_Y a)))
               /\ TY_points_and_landmarks s0 = a16
               /\ Y_points_and_landmarks s0 = a16
               /\ iteration s0 = 0%Z)
    by (rewrite Hs0; repeat split).
  destruct H0 as [-> [-> [-> [-> [-> ->]]]]].
  clear Hs0.
  assert (Hlen : (length (rows_of (asarray (arg_Y a))) <= length a16)%nat)
    by (eapply concatenate_length; eassumption).
  destruct (landmark_checks _ _ _ _ _ E9 E10 E12) as [Hg' _].
  repeat split; assumption.
Qed.

(** ** Shapes along an affine run *)

Section AffineShapes.

Variable linalg_solve : matrix -> matrix -> result matrix.

Lemma affine_transform_point_cloud_shaped (s s' : Affine.engine) :
  length (X_points s) = N s ->
  (M s <= length (Y_points_and_landmarks s))%nat ->
  Affine.transform_point_cloud s = Ok s' ->
  well_shaped s'
  /\ (M s' <= length (Y_points_and_landmarks s'))%nat
  /\ landmark_guided s' = landmark_guided s
  /\ ss2 s' = ss2 s.
Proof.
  intros HN HY H. unfold Affine.transform_point_cloud in H.
  injection H as <-. unfold well_shaped. simpl.
  repeat split; try assumption.
  unfold mat_zip, dot, tile.
  rewrite zipWith_length, length_map, repeat_length. lia.
Qed.

(** One pass through the loop body keeps the extents the expectation step
    relies on, so they hold at every iteration of a run that starts from
    an engine the constructor returned. *)
Lemma affine_iterate_shaped (s s' : Affine.engine) :
  well_shaped s ->
  (M s <= length (Y_points_and_landmarks s))%nat ->
  @iterate _ (Affine.affine_model linalg_solve) s = Ok s' ->
  well_shaped s'
  /\ (M s' <= length (Y_points_and_landmarks s'))%nat
  /\ landmark_guided s' = landmark_guided s
  /\ ss2 s' = ss2 s.
Proof.
  intros [HN HT] HY H. unfold iterate, maximization in H.
  apply bind_Ok in H. destruct H as [s1 [H1 H]].
  apply bind_Ok in H. destruct H as [s2 [H2 H]].
  apply bind_Ok in H. destruct H as [s5 [H3 H]].
  apply bind_Ok in H3. destruct H3 as [s3 [H3 H4]].
  apply bind_Ok in H4. destruct H4 as [s4 [H4 H5]].
  injection H as <-.
  simpl in H1. injection H1 as <-.
  unfold expectation in H2. apply bind_Ok in H2.
  destruct H2 as [c [_ H2]]. injection H2 as <-.
  simpl in H3. unfold Affine.update_transform in H3.
  apply bind_Ok in H3. destruct H3 as [Bv [_ H3]]. injection H3 as <-.
  simpl in H4.
  apply affine_transform_point_cloud_shaped in H4; [| exact HN | exact HY].
  destruct H4 as [Hw [HY4 [Hg Hs]]].
  simpl in H5. apply affine_update_variance_Ok in H5.
  destruct H5 as [v [-> _]].
  simpl in *. repeat split; try assumption; apply Hw.
Qed.

(** X17: any number of passes through the loop body of an affine engine
    keeps the extents of the arrays the expectation step relies on, the
    landmark flag and [ss2]. *)
Lemma affine_iterate_n_shaped (k : nat) :
  forall s s' : Affine.engine,
    well_shaped s ->
    (M s <= length (Y_points_and_landmarks s))%nat ->
    @iterate_n _ (Affine.affine_model linalg_solve) k s = Ok s' ->
    well_shaped s'
    /\ (M s' <= length (Y_points_and_landmarks s'))%nat
    /\ landmark_guided s' = landmark_guided s
    /\ ss2 s' = ss2 s.
Proof.
  induction k as [| k IH]; intros s s' Hw HY H.
  - simpl in H. injection H as <-. repeat split; try assumption; apply Hw.
  - simpl in H. apply bind_Ok in H. destruct H as [s1 [H1 H]].
    apply affine_iterate_shaped in H1; [| exact Hw | exact HY].
    destruct H1 as [Hw1 [HY1 [Hg1 Hs1]]].
    apply IH in H; [| exact Hw1 | exact HY1].
    destruct H as [Hw' [HY' [Hg' Hs']]].
    repeat split; try assumption; try apply Hw'; congruence.
Qed.

End AffineShapes.

(** ** The properties at a concrete engine *)

Lemma collapsed_well_shaped (tol : R) (cap : option Z) (force : bool) :
  well_shaped (collapsed_engine tol cap force).
Proof.
  unfold well_shaped. simpl. split; [reflexivity | lia].
Qed.

(** In an engine whose frames differ (target: mean 3, scale 2; source:
    mean 5, scale 7) the transformed points [1/2] and [1] come back as
    [1/2 * 2 + 3 = 4] and [1 * 2 + 3 = 5], not as the source frame would
    give them. *)
Lemma get_transformed_points_target_frame_witness :
  normalize framed_engine = true
  /\ get_transformed_points framed_engine = [[4]; [5]]
  /\ denormalize_fn (normalize_fncts framed_engine)
                    (firstn (M framed_engine)
                            (TY_points_and_landmarks framed_engine)) "Y"
     <> get_transformed_points framed_engine.
Proof.
  split; [reflexivity |].
  rewrite (get_transformed_points_target_frame framed_engine eq_refl).
  split.
  - cbn. repeat f_equal; lra.
  - cbn. intros H. injection H as H _. lra.
Defined.

Lemma expectation_landmark_block_witness :
  landmark_guided (collapsed_engine 0 None false) = true
  /\ well_shaped (collapsed_engine 0 None false)
  /\ forall s', expectation (collapsed_engine 0 None false) = Ok s' ->
       landmark_sub_block (collapsed_engine 0 None false) (P s')
       = mat_map (fun v => sigma2 (collapsed_engine 0 None false)
                           / ss2 (collapsed_engine 0 None false) * v)
                 (identity (K (collapsed_engine 0 None false))).
Proof.
  split; [reflexivity |].
  split; [apply collapsed_well_shaped |].
  apply (expectation_landmark_block (collapsed_engine 0 None false)).
  - reflexivity.
  - apply collapsed_well_shaped.
Defined.



(** * Further properties of the engine *)

(** ** Sums over rows and columns *)

Lemma sum_app (u v : vec) : sum (u ++ v) = sum u + sum v.
Proof.
  induction u as [| a u IH]; simpl; [lra | rewrite IH; lra].
Qed.

Lemma sum_zeros (n : nat) : sum (zeros n) = 0.
Proof.
  unfold zeros. induction n as [| n IH]; simpl; [reflexivity | rewrite IH; lra].
Qed.

Lemma sum_map_plus {A : Type} (f g : A -> R) (l : list A) :
  sum (map (fun a => f a + g a) l) = sum (map f l) + sum (map g l).
Proof.
  induction l as [| a l IH]; simpl; [lra | rewrite IH; lra].
Qed.

Lemma sum_map_scale {A : Type} (f : A -> R) (k : R) (l : list A) :
  sum (map (fun a => f a * k) l) = sum (map f l) * k.
Proof.
  induction l as [| a l IH]; simpl; [lra | rewrite IH; lra].
Qed.

Lemma sum_bounded (l : vec) (b : R) :
  Forall (fun v => v <= b) l -> sum l <= INR (length l) * b.
Proof.
  induction 1 as [| v l Hv _ IH].
  - simpl. lra.
  - cbn [sum fold_right length]. fold (sum l). rewrite S_INR. lra.
Qed.

Lemma sum_constant (l : vec) (b : R) :
  Forall (fun v => v = b) l -> sum l = INR (length l) * b.
Proof.
  induction 1 as [| v l Hv _ IH].
  - simpl. lra.
  - cbn [sum fold_right length]. fold (sum l). rewrite S_INR, IH, Hv. lra.
Qed.

Lemma map_nth_seq (r : vec) (a : nat) :
  map (fun j => nth (j - a) r 0) (seq a (length r)) = r.
Proof.
  revert a. induction r as [| x r IH]; intros a; simpl; [reflexivity |].
  rewrite Nat.sub_diag. f_equal.
  rewrite <- (IH (S a)) at 2.
  apply map_ext_in. intros j Hj. apply in_seq in Hj.
  destruct (j - a)%nat as [| d] eqn:Hd; [lia |].
  f_equal. lia.
Qed.

Lemma map_nth_seq_0 (r : vec) (c : nat) :
  length r = c -> map (fun j => nth j r 0) (seq 0 c) = r.
Proof.
  intros <-. rewrite <- (map_nth_seq r 0) at 2.
  apply map_ext. intros j. rewrite Nat.sub_0_r. reflexivity.
Qed.

(** The sum of the row sums is the sum of the column sums. *)
Lemma sum_rows_cols (c : nat) (A0 : matrix) :
  rect c A0 -> sum (map sum A0) = sum (sum_axis0 c A0).
Proof.
  unfold rect, sum_axis0. induction 1 as [| r A0 Hr _ IH].
  - simpl. induction (seq 0 c) as [| j l IHl]; simpl; [reflexivity |].
    rewrite <- IHl. lra.
  - cbn [map sum fold_right col]. fold (sum (map sum A0)).
    rewrite IH.
    rewrite (sum_map_plus (fun j => nth j r 0) (fun j => sum (col j A0))).
    rewrite (map_nth_seq_0 r c Hr). reflexivity.
Qed.

Lemma identity_row_sum (i a n : nat) :
  sum (map (fun j => if Nat.eqb i j then 1 else 0) (seq a n))
  = if (a <=? i)%nat && (i <? a + n)%nat then 1 else 0.
Proof.
  revert a. induction n as [| n IH]; intros a; simpl.
  - destruct (a <=? i)%nat eqn:H1; simpl; [| reflexivity].
    destruct (i <? a + 0)%nat eqn:H2; [| reflexivity].
    apply Nat.leb_le in H1. apply Nat.ltb_lt in H2. lia.
  - rewrite IH.
    destruct (Nat.eqb_spec i a) as [-> | Hne].
    + rewrite Nat.leb_refl.
      replace (a <? a + S n)%nat with true
        by (symmetry; apply Nat.ltb_lt; lia).
      replace (S a <=? a)%nat with false
        by (symmetry; apply Nat.leb_gt; lia).
      simpl. lra.
    + destruct (a <=? i)%nat eqn:H1, (S a <=? i)%nat eqn:H2,
               (i <? a + S n)%nat eqn:H3, (i <? S a + n)%nat eqn:H4;
        simpl; try lra;
        repeat match goal with
               | H : (_ <=? _)%nat = true |- _ => apply Nat.leb_le in H
               | H : (_ <=? _)%nat = false |- _ => apply Nat.leb_gt in H
               | H : (_ <? _)%nat = true |- _ => apply Nat.ltb_lt in H
               | H : (_ <? _)%nat = false |- _ => apply Nat.ltb_ge in H
               end; lia.
Qed.

(** ** What the expectation step stores *)

Section ExpectationOutputs.

Context {T : Type}.
Variable s : EMRegistration T.
Hypothesis Hshape : well_shaped s.

Lemma quotient_length (c : R) :
  length (mat_zip Rdiv (kernel s) (denominator s c)) = M s.
Proof.
  rewrite quotient_rows, length_map.
  apply kernel_length_shaped. exact Hshape.
Qed.

Lemma quotient_rect (c : R) :
  rect (N s) (mat_zip Rdiv (kernel s) (denominator s c)).
Proof.
  unfold rect. destruct Hshape as [HN _]. rewrite <- HN.
  apply quotient_row_length.
Qed.

Lemma landmark_block_rect : rect (K s) (landmark_block s).
Proof.
  unfold rect, landmark_block, mat_map, identity.
  rewrite Forall_forall. intros row Hrow.
  apply in_map_iff in Hrow. destruct Hrow as [r [<- Hr]].
  apply in_map_iff in Hr. destruct Hr as [i [<- _]].
  rewrite !length_map. apply length_seq.
Qed.

Lemma landmark_block_row_sums :
  Forall (fun brow => sum brow = sigma2 s / ss2 s) (landmark_block s).
Proof.
  unfold landmark_block, mat_map, identity.
  rewrite Forall_forall. intros row Hrow.
  apply in_map_iff in Hrow. destruct Hrow as [r [<- Hr]].
  apply in_map_iff in Hr. destruct Hr as [i [<- Hi]].
  apply in_seq in Hi.
  rewrite map_map.
  transitivity
    (sum (map (fun j => (if Nat.eqb i j then 1 else 0) * (sigma2 s / ss2 s))
              (seq 0 (K s)))).
  - f_equal. apply map_ext. intros j. unfold Rdiv. ring.
  - rewrite (sum_map_scale (fun j => if Nat.eqb i j then 1 else 0)).
    rewrite identity_row_sum.
    replace (0 <=? i)%nat with true by (symmetry; apply Nat.leb_le; lia).
    replace (i <? 0 + K s)%nat with true by (symmetry; apply Nat.ltb_lt; lia).
    simpl. lra.
Qed.

(** The stored matrix, whether the engine is landmark-guided or not. *)
Lemma stored_P (c : R) :
  expectation_P s c
  = map (fun row => row ++ zeros (landmark_extent s))
        (mat_zip Rdiv (kernel s) (denominator s c))
    ++ (if landmark_guided s
        then map (fun brow => zeros (N s) ++ brow) (landmark_block s)
        else []).
Proof.
  unfold landmark_extent. destruct (landmark_guided s) eqn:Hg.
  - apply guided_P; assumption.
  - unfold expectation_P. rewrite Hg. rewrite app_nil_r.
    rewrite <- (map_id (mat_zip Rdiv (kernel s) (denominator s c))) at 1.
    apply map_ext. intros row. simpl. rewrite app_nil_r. reflexivity.
Qed.

Lemma stored_P_length (c : R) :
  length (expectation_P s c) = (M s + landmark_extent s)%nat.
Proof.
  rewrite stored_P, length_app, length_map, quotient_length.
  unfold landmark_extent. destruct (landmark_guided s); simpl; [| lia].
  rewrite length_map, landmark_block_length. reflexivity.
Qed.

Lemma stored_P_rect (c : R) :
  rect (N s + landmark_extent s) (expectation_P s c).
Proof.
  rewrite stored_P. unfold rect. apply Forall_app. split.
  - pose proof (quotient_rect c) as Hq. unfold rect in Hq.
    rewrite Forall_forall in *. intros row Hrow.
    apply in_map_iff in Hrow. destruct Hrow as [r [<- Hr]].
    rewrite length_app, (Hq r Hr). unfold zeros. rewrite repeat_length.
    reflexivity.
  - unfold landmark_extent. destruct (landmark_guided s); [| constructor].
    pose proof landmark_block_rect as Hb. unfold rect in Hb.
    rewrite Forall_forall in *. intros row Hrow.
    apply in_map_iff in Hrow. destruct Hrow as [r [<- Hr]].
    rewrite length_app, (Hb r Hr). unfold zeros. rewrite repeat_length.
    reflexivity.
Qed.

Lemma stored_non_landmark_mass (c : R) :
  sum (firstn (M s) (sum_axis1 (expectation_P s c)))
  = sum (map sum (mat_zip Rdiv (kernel s) (denominator s c))).
Proof.
  unfold sum_axis1. rewrite firstn_map. rewrite stored_P.
  set (Pm := mat_zip Rdiv (kernel s) (denominator s c)).
  assert (HPm : length (map (fun row => row ++ zeros (landmark_extent s)) Pm)
                = M s)
    by (rewrite length_map; apply quotient_length).
  rewrite <- HPm at 1. rewrite firstn_app_length.
  rewrite map_map. f_equal. apply map_ext. intros row.
  rewrite sum_app, sum_zeros. lra.
Qed.

Lemma stored_mass (c : R) :
  sum (sum_axis1 (expectation_P s c))
  = sum (map sum (mat_zip Rdiv (kernel s) (denominator s c)))
    + INR (landmark_extent s) * (sigma2 s / ss2 s).
Proof.
  unfold sum_axis1. rewrite stored_P, map_app, sum_app.
  f_equal.
  - rewrite map_map. f_equal. apply map_ext. intros row.
    rewrite sum_app, sum_zeros. lra.
  - unfold landmark_extent. destruct (landmark_guided s); [| simpl; lra].
    rewrite map_map.
    transitivity
      (INR (length (map (fun brow => sum (zeros (N s) ++ brow))
                        (landmark_block s)))
       * (sigma2 s / ss2 s)).
    + apply sum_constant.
      pose proof landmark_block_row_sums as Hb.
      rewrite Forall_forall in *. intros v Hv.
      apply in_map_iff in Hv. destruct Hv as [brow [<- Hin]].
      rewrite sum_app, sum_zeros, (Hb brow Hin). lra.
    + rewrite length_map. f_equal. f_equal. apply landmark_block_length.
Qed.

End ExpectationOutputs.

Lemma expectation_fields {T : Type} (s s' : EMRegistration T) :
  expectation s = Ok s' ->
  exists c,
    outlier_constant s = Ok c
    /\ P s' = expectation_P s c
    /\ Pt1 s' = sum_axis0 (expectation_cols s) (expectation_P s c)
    /\ P1 s' = sum_axis1 (expectation_P s c)
    /\ Np_with_landmarks s' = sum (sum_axis1 (expectation_P s c))
    /\ Np_without_landmarks s'
       = sum (firstn (M s) (sum_axis1 (expectation_P s c)))
    /\ PX s' = dot (D s) (expectation_P s c) (X_points_and_landmarks s).
Proof.
  unfold expectation. intros H.
  apply bind_Ok in H. destruct H as [c [Hc H]].
  exists c. split; [exact Hc |].
  injection H as <-. repeat split.
Qed.

(** X1: the expectation step of an engine whose arrays have the announced
    extents stores arrays of the documented shapes: [P] has [M + K] rows of
    [N + K] entries, [Pt1] has [N + K] entries, [P1] has [M + K], and [PX]
    has [M + K] rows of [D] entries ([K] counted as 0 when the engine is
    not landmark-guided). *)
Theorem expectation_shapes {T : Type} (s s' : EMRegistration T) :
  well_shaped s ->
  expectation s = Ok s' ->
  length (P s') = (M s + landmark_extent s)%nat
  /\ rect (N s + landmark_extent s) (P s')
  /\ length (Pt1 s') = (N s + landmark_extent s)%nat
  /\ length (P1 s') = (M s + landmark_extent s)%nat
  /\ length (PX s') = (M s + landmark_extent s)%nat
  /\ rect (D s) (PX s').
Proof.
  intros Hshape H.
  destruct (expectation_fields s s' H)
    as [c [_ [HP [HPt1 [HP1 [_ [_ HPX]]]]]]].
  rewrite HP, HPt1, HP1, HPX.
  pose proof (stored_P_length s Hshape c) as Hlen.
  split; [exact Hlen |].
  split; [apply stored_P_rect; exact Hshape |].
  split.
  { unfold sum_axis0. rewrite length_map, length_seq.
    unfold expectation_cols, landmark_extent.
    destruct Hshape as [HN _]. rewrite HN.
    destruct (landmark_guided s); lia. }
  split; [unfold sum_axis1; rewrite length_map; exact Hlen |].
  split; [unfold dot; rewrite length_map; exact Hlen |].
  unfold rect, dot. rewrite Forall_forall. intros row Hrow.
  apply in_map_iff in Hrow. destruct Hrow as [r [<- _]].
  rewrite length_map. apply length_seq.
Qed.

Lemma expectation_shapes_witness :
  well_shaped (collapsed_engine 0 None false)
  /\ exists s',
      expectation (collapsed_engine 0 None false) = Ok s'
      /\ length (P s') = 3%nat
      /\ length (Pt1 s') = 3%nat.
Proof.
  pose proof (collapsed_well_shaped 0 None false) as Hw.
  split; [exact Hw |].
  destruct (expectation_total (collapsed_engine 0 None false)) as [s' Hs'];
    [simpl; lia | simpl; lra |].
  exists s'. split; [exact Hs' |].
  destruct (expectation_shapes _ s' Hw Hs') as [HP [_ [HPt1 _]]].
  split; [exact HP | exact HPt1].
Defined.

(** X2: after the expectation step, [Np_with_landmarks] is
    [Np_without_landmarks] plus the mass of the landmark block,
    [K * sigma2 / ss2]; the two are equal when the engine is not
    landmark-guided. *)
Theorem expectation_landmark_mass {T : Type} (s s' : EMRegistration T) :
  well_shaped s ->
  expectation s = Ok s' ->
  Np_with_landmarks s'
  = Np_without_landmarks s'
    + INR (landmark_extent s) * (sigma2 s / ss2 s).
Proof.
  intros Hshape H.
  destruct (expectation_fields s s' H)
    as [c [_ [_ [_ [_ [Hw [Hwo _]]]]]]].
  rewrite Hw, Hwo, (stored_mass s Hshape), (stored_non_landmark_mass s Hshape).
  reflexivity.
Qed.

Lemma expectation_landmark_mass_witness :
  well_shaped (collapsed_engine 0 None false)
  /\ exists s',
      expectation (collapsed_engine 0 None false) = Ok s'
      /\ Np_with_landmarks s' = Np_without_landmarks s' + 1 * (1 / (1 / 10)).
Proof.
  pose proof (collapsed_well_shaped 0 None false) as Hw.
  split; [exact Hw |].
  destruct (expectation_total (collapsed_engine 0 None false)) as [s' Hs'];
    [simpl; lia | simpl; lra |].
  exists s'. split; [exact Hs' |].
  exact (expectation_landmark_mass _ s' Hw Hs').
Defined.

(** X3: in an engine with [sigma2 > 0], an outlier weight in [[0, 1)] and
    arrays of the announced extents, the mass [Np_without_landmarks] the
    expectation step stores lies between 0 and the number [N] of target
    points. *)
Theorem expectation_mass_bounds {T : Type} (s s' : EMRegistration T) :
  0 < sigma2 s ->
  0 <= outliers s < 1 ->
  well_shaped s ->
  expectation s = Ok s' ->
  0 <= Np_without_landmarks s' <= INR (N s).
Proof.
  intros Hs2 Hw Hshape H.
  destruct (expectation_fields s s' H)
    as [c [Hc [_ [_ [_ [_ [Hwo _]]]]]]].
  pose proof (outlier_constant_nonneg s c Hs2 Hw Hc) as Hc0.
  rewrite Hwo, (stored_non_landmark_mass s Hshape).
  rewrite (sum_rows_cols (N s)) by (apply quotient_rect; exact Hshape).
  assert (Hlen : length (sum_axis0 (N s)
                   (mat_zip Rdiv (kernel s) (denominator s c))) = N s)
    by (unfold sum_axis0; rewrite length_map; apply length_seq).
  split.
  - apply sum_nonneg. unfold sum_axis0.
    rewrite Forall_forall. intros v Hv.
    apply in_map_iff in Hv. destruct Hv as [j [<- _]].
    apply sum_nonneg. unfold col.
    pose proof (quotient_nonneg s c Hc0) as Hq.
    rewrite Forall_forall in *. intros v Hv.
    apply in_map_iff in Hv. destruct Hv as [row [<- Hrow]].
    specialize (Hq row Hrow). rewrite Forall_forall in Hq.
    destruct (nth_in_or_default j row 0) as [Hin | ->]; [| lra].
    apply Hq. exact Hin.
  - rewrite <- Hlen at 2. rewrite <- (Rmult_1_r (INR _)).
    apply sum_bounded. unfold sum_axis0.
    rewrite Forall_forall. intros v Hv.
    apply in_map_iff in Hv. destruct Hv as [j [<- Hj]].
    apply in_seq in Hj.
    apply quotient_col_sum; [exact Hc0 |].
    destruct Hshape as [HN _]. rewrite HN. lia.
Qed.

Lemma expectation_mass_bounds_witness :
  0 < sigma2 (collapsed_engine 0 None false)
  /\ 0 <= outliers (collapsed_engine 0 None false) < 1
  /\ well_shaped (collapsed_engine 0 None false)
  /\ exists s',
      expectation (collapsed_engine 0 None false) = Ok s'
      /\ 0 <= Np_without_landmarks s' <= 2.
Proof.
  assert (H1 : 0 < sigma2 (collapsed_engine 0 None false)) by (simpl; lra).
  assert (H2 : 0 <= outliers (collapsed_engine 0 None false) < 1)
    by (simpl; lra).
  pose proof (collapsed_well_shaped 0 None false) as Hw.
  split; [exact H1 |]. split; [exact H2 |]. split; [exact Hw |].
  destruct (expectation_total (collapsed_engine 0 None false)) as [s' Hs'];
    [simpl; lia | simpl; lra |].
  exists s'. split; [exact Hs' |].
  exact (expectation_mass_bounds _ s' H1 H2 Hw Hs').
Defined.

Lemma sum_pos (l : vec) :
  l <> [] -> Forall (fun v => 0 < v) l -> 0 < sum l.
Proof.
  intros Hne H. destruct H as [| v l Hv Hl]; [contradiction |].
  simpl. pose proof (sum_nonneg l) as Hs.
  assert (0 <= sum l).
  { apply Hs. rewrite Forall_forall in *. intros x Hx.
    apply Rlt_le. apply Hl. exact Hx. }
  unfold sum in *. lra.
Qed.

Lemma kernel_col_pos {T : Type} (s : EMRegistration T) (j : nat) :
  (j < length (X_points s))%nat ->
  Forall (fun v => 0 < v) (col j (kernel s)).
Proof.
  intros Hj. unfold col. rewrite Forall_forall. intros v Hv.
  apply in_map_iff in Hv. destruct Hv as [krow [<- Hin]].
  pose proof (kernel_rows s) as Hrows. rewrite Forall_forall in Hrows.
  destruct (Hrows krow Hin) as [Hlen Hpos].
  rewrite Forall_forall in Hpos. apply Hpos.
  apply nth_In. rewrite Hlen. exact Hj.
Qed.

Lemma outlier_constant_zero {T : Type} (s : EMRegistration T) (c : R) :
  outliers s = 0 -> outlier_constant s = Ok c -> c = 0.
Proof.
  intros Hw. unfold outlier_constant, py_div. rewrite Hw. intros H.
  destruct (Req_dec_T (1 - 0) 0) as [Hz | _]; [lra |].
  simpl in H.
  destruct (Req_dec_T (INR (N s)) 0) as [| _]; [discriminate H |].
  injection H as <-. unfold Rdiv. ring.
Qed.

(** Quotients of real numbers: with the outlier weight 0 every column
    of the kernel is divided by its own sum, which is positive. *)
Lemma without_outliers_columns {T : Type} (s s' : EMRegistration T) :
  outliers s = 0 ->
  (1 <= M s)%nat ->
  well_shaped s ->
  expectation s = Ok s' ->
  (forall j, (j < N s)%nat ->
             sum (col j (non_landmark_block s (P s'))) = 1)
  /\ Np_without_landmarks s' = INR (N s).
Proof.
  intros Hw HM Hshape H.
  destruct (expectation_fields s s' H)
    as [c [Hc [HP [_ [_ [_ [Hwo _]]]]]]].
  pose proof (outlier_constant_zero s c Hw Hc) as ->.
  assert (Hcol : forall j, (j < N s)%nat ->
            sum (col j (mat_zip Rdiv (kernel s) (denominator s 0))) = 1).
  { intros j Hj.
    assert (Hj' : (j < length (X_points s))%nat)
      by (destruct Hshape as [HN _]; rewrite HN; exact Hj).
    rewrite quotient_col by exact Hj'. rewrite sum_map_div.
    assert (HS : 0 < sum (col j (kernel s))).
    { apply sum_pos; [| apply kernel_col_pos; exact Hj'].
      unfold col. intros Hnil. apply map_eq_nil in Hnil.
      pose proof (kernel_length_shaped s Hshape) as Hlen.
      rewrite Hnil in Hlen. simpl in Hlen. lia. }
    rewrite Rplus_0_r. unfold guard_zero.
    destruct (Req_dec_T (sum (col j (kernel s))) 0) as [Hz | Hn]; [lra |].
    unfold Rdiv. apply Rinv_r. exact Hn. }
  split.
  - intros j Hj. rewrite HP, (stored_non_landmark_block s Hshape).
    apply Hcol. exact Hj.
  - rewrite Hwo, (stored_non_landmark_mass s Hshape).
    rewrite (sum_rows_cols (N s)) by (apply quotient_rect; exact Hshape).
    assert (Hlen : length (sum_axis0 (N s)
                     (mat_zip Rdiv (kernel s) (denominator s 0))) = N s)
      by (unfold sum_axis0; rewrite length_map; apply length_seq).
    rewrite <- Hlen at 2. rewrite <- (Rmult_1_r (INR _)).
    apply sum_constant. unfold sum_axis0.
    rewrite Forall_forall. intros v Hv.
    apply in_map_iff in Hv. destruct Hv as [j [<- Hj]].
    apply in_seq in Hj. apply Hcol. lia.
Qed.

(** X4: in exact arithmetic, where the kernel [exp(-d / (2 sigma2))] of
    a positive [sigma2] is positive and never underflows to 0: with the
    outlier weight 0 and at least one source point, the expectation step
    makes every column of [P[:M, :N]] sum to exactly 1, and
    [Np_without_landmarks] is the number [N] of target points. *)
Theorem expectation_without_outliers {T : Type} (s s' : EMRegistration T) :
  0 < sigma2 s ->
  outliers s = 0 ->
  (1 <= M s)%nat ->
  well_shaped s ->
  expectation s = Ok s' ->
  (forall j, (j < N s)%nat ->
             sum (col j (non_landmark_block s (P s'))) = 1)
  /\ Np_without_landmarks s' = INR (N s).
Proof.
  intros _. apply without_outliers_columns.
Qed.

Lemma expectation_without_outliers_witness :
  0 < sigma2 (collapsed_engine 0 None false)
  /\ outliers (collapsed_engine 0 None false) = 0
  /\ (1 <= M (collapsed_engine 0 None false))%nat
  /\ well_shaped (collapsed_engine 0 None false)
  /\ exists s',
      expectation (collapsed_engine 0 None false) = Ok s'
      /\ Np_without_landmarks s' = 2.
Proof.
  pose proof (collapsed_well_shaped 0 None false) as Hw.
  assert (Hs2 : 0 < sigma2 (collapsed_engine 0 None false))
    by (simpl; lra).
  split; [exact Hs2 |].
  split; [reflexivity |]. split; [simpl; lia |]. split; [exact Hw |].
  destruct (expectation_total (collapsed_engine 0 None false)) as [s' Hs'];
    [simpl; lia | simpl; lra |].
  exists s'. split; [exact Hs' |].
  assert (HM : (1 <= M (collapsed_engine 0 None false))%nat)
    by (simpl; lia).
  destruct (expectation_without_outliers (collapsed_engine 0 None false) s'
              Hs2 eq_refl HM Hw Hs') as [_ HNp].
  exact HNp.
Defined.

(** ** Runs of [register] *)

Section RunFacts.

Context {T : Type} `{TM : TransformModel T}.
Context {laws : ModelKeepsControl T}.

Lemma counted_iterations (base : Z) (m : nat) :
  (base + 1)%Z :: map (fun k => (base + 1 + Z.of_nat k + 1)%Z) (seq 0 m)
  = map (fun k => (base + Z.of_nat k + 1)%Z) (seq 0 (S m)).
Proof.
  cbn [seq map]. f_equal; [f_equal; lia |].
  rewrite <- seq_shift, map_map.
  apply map_ext. intros k. lia.
Qed.

Lemma register_loop_log (cb : callback) (fuel : nat) :
  forall (s : EMRegistration T) (n : nat) (log log' : list kwargs)
         (s' : EMRegistration T) (n' : nat),
    register_loop fuel cb s n log = (log', Some (Ok (s', n'))) ->
    (n <= n')%nat
    /\ match cb with
       | None => log' = log
       | Some _ =>
         map kw_iteration log'
         = map kw_iteration log
           ++ map (fun k => (iteration s + Z.of_nat k + 1)%Z)
                  (seq 0 (n' - n))
       end.
Proof.
  induction fuel as [| fuel IH]; intros s n log log' s' n' H;
    [discriminate H |].
  simpl in H. destruct (loop_condition s).
  - destruct (iterate s) as [s1 | e] eqn:Hit; [| discriminate H].
    pose proof (iterate_control _ _ Hit) as [Hi _].
    destruct cb as [f |].
    + destruct (f (callback_kwargs s1)) as [u | e]; [| discriminate H].
      apply IH in H. destruct H as [Hn Hlog].
      split; [lia |].
      rewrite Hlog, map_app, <- app_assoc. f_equal.
      cbn [map app callback_kwargs kw_iteration].
      rewrite Hi.
      replace (n' - n)%nat with (S (n' - S n)) by lia.
      apply counted_iterations.
    + apply IH in H. destruct H as [Hn Hlog].
      split; [lia | exact Hlog].
  - injection H as <- <- <-.
    split; [lia |].
    destruct cb; [| reflexivity].
    rewrite Nat.sub_diag. simpl. rewrite app_nil_r. reflexivity.
Qed.

(** X5: when [register] returns, a callable callback has been called once
    per pass through the loop body, with [iteration] counting on from the
    counter at entry (1, 2, ... for an engine as constructed); a callback
    that is not callable is never called. *)
Theorem register_callback_iterations (fuel : nat) (cb : callback)
        (s : EMRegistration T) (calls : list kwargs)
        (out : outcome T params) :
  register fuel cb s = (calls, Some (Ok out)) ->
  match cb with
  | None => calls = []
  | Some _ =>
    map kw_iteration calls
    = map (fun k => (iteration s + Z.of_nat k + 1)%Z)
          (seq 0 (iterations out))
  end.
Proof.
  unfold register. intros H.
  destruct (transform_point_cloud s) as [s0 | e] eqn:Ht; [| discriminate H].
  apply transform_point_cloud_control in Ht. destruct Ht as [Hi _].
  destruct (register_loop fuel cb s0 0 []) as [log [[[s' n] | e] |]]
    eqn:Hloop; try discriminate H.
  destruct (get_registration_parameters s') as [p | e]; simpl in H;
    [| discriminate H].
  injection H as <- <-. simpl.
  apply register_loop_log in Hloop. destruct Hloop as [_ Hlog].
  destruct cb; [| exact Hlog].
  rewrite Hlog, Hi, Nat.sub_0_r. reflexivity.
Qed.

(** X6: an engine whose counter has reached its cap (so any engine built
    with [max_iterations=0]) does not enter the loop: [register] applies
    the current transform once, never calls the callback, and returns the
    points of that cloud with the model's parameters. *)
Theorem register_at_cap (fuel : nat) (cb : callback) (s : EMRegistration T)
        (c : Z) :
  max_iterations s = Some c ->
  (c <= iteration s)%Z ->
  register (S fuel) cb s
  = match transform_point_cloud s with
    | Raise e => ([], Some (Raise e))
    | Ok s0 =>
      ([], Some (p <- get_registration_parameters s0 ;;
                 Ok {| final := s0; iterations := 0;
                       returned := (get_transformed_points s0, p) |}))
    end.
Proof.
  intros Hcap Hle. unfold register.
  destruct (transform_point_cloud s) as [s0 | e] eqn:Ht; [| reflexivity].
  apply transform_point_cloud_control in Ht. destruct Ht as [Hi [Hm _]].
  simpl. rewrite (loop_condition_capped s0 c) by congruence.
  replace (iteration s0 <? c)%Z with false
    by (symmetry; apply Z.ltb_ge; lia).
  reflexivity.
Qed.

End RunFacts.

Lemma register_loop_step {T : Type} `{TM : TransformModel T} (fuel : nat)
      (f : kwargs -> result unit) (s s1 : EMRegistration T) (n : nat)
      (log : list kwargs) :
  loop_condition s = true ->
  iterate s = Ok s1 ->
  f (callback_kwargs s1) = Ok tt ->
  register_loop (S fuel) (Some f) s n log
  = register_loop fuel (Some f) s1 (S n) (log ++ [callback_kwargs s1]).
Proof.
  intros Hc Hi Hf. simpl. rewrite Hc, Hi, Hf. reflexivity.
Qed.

(** One pass of an affine engine whose solver returns its right-hand side:
    with the outlier weight 0, points on both sides and a tolerance that
    is a real number, the pass completes. *)
Lemma affine_iterate_total (s : Affine.engine) (t : R) :
  N s <> 0%nat -> D s <> 0%nat -> (1 <= M s)%nat ->
  outliers s = 0 -> well_shaped s -> tolerance s = Fin t ->
  exists s1, @iterate _ (Affine.affine_model (fun _ b => Ok b)) s = Ok s1.
Proof.
  intros HN HD HM Hw Hshape Htol.
  destruct (expectation_total s HN) as [sE HE]; [rewrite Hw; lra |].
  destruct (without_outliers_columns s sE Hw HM Hshape HE) as [_ HNp].
  assert (HE' : D sE = D s /\ tolerance sE = tolerance s).
  { unfold expectation in HE. apply bind_Ok in HE.
    destruct HE as [c [_ HE]]. injection HE as <-. split; reflexivity. }
  destruct HE' as [HDE HtE].
  unfold iterate. simpl. rewrite HE. simpl. unfold maximization. simpl.
  match goal with
  | |- context [Affine.update_variance ?st] =>
    destruct (affine_update_variance_total st t) as [v [Hv _]]
  end.
  - simpl. rewrite HNp, HDE.
    apply Rmult_integral_contrapositive.
    split; apply not_0_INR; assumption.
  - simpl. rewrite HtE. exact Htol.
  - rewrite Hv. simpl. eexists. reflexivity.
Qed.

(** A run of one pass: the engine [collapsed_engine] with the cap 1, the
    force flag on and the default callback. *)
Lemma collapsed_run :
  exists s1 p,
    @register _ (Affine.affine_model (fun _ b => Ok b)) 2 default_callback
              (collapsed_engine (1 / 1000) (Some 1%Z) true)
    = ([callback_kwargs s1],
       Some (Ok {| final := s1; iterations := 1;
                   returned := (get_transformed_points s1, p) |})).
Proof.
  set (TMw := Affine.affine_model (fun _ b => Ok b)).
  set (s := collapsed_engine (1 / 1000) (Some 1%Z) true).
  destruct (@transform_point_cloud _ TMw s) as [s0 | e] eqn:Ht;
    [| discriminate Ht].
  pose proof (@transform_point_cloud_control
                _ TMw (affine_keeps_control _) s s0 Ht)
    as [Hi0 [Hm0 [Hf0 _]]].
  assert (HN0 : N s0 = 2%nat /\ D s0 = 1%nat /\ M s0 = 2%nat
                /\ outliers s0 = 0 /\ well_shaped s0
                /\ tolerance s0 = Fin (1 / 1000)).
  { simpl in Ht. unfold Affine.transform_point_cloud in Ht.
    injection Ht as <-. unfold well_shaped. simpl.
    repeat split; lia. }
  destruct HN0 as [HN0 [HD0 [HM0 [Hw0 [Hshape0 Htol0]]]]].
  destruct (affine_iterate_total s0 (1 / 1000)) as [s1 Hs1];
    [rewrite HN0; lia | rewrite HD0; lia | rewrite HM0; lia
     | exact Hw0 | exact Hshape0 | exact Htol0 |].
  fold TMw in Hs1.
  pose proof (@iterate_control _ TMw (affine_keeps_control _) s0 s1 Hs1)
    as [Hi1 [Hm1 _]].
  assert (Hc0 : @loop_condition _ s0 = true).
  { unfold loop_condition. rewrite Hm0, Hi0, Hf0. reflexivity. }
  assert (Hc1 : @loop_condition _ s1 = false).
  { unfold loop_condition. rewrite Hm1, Hm0, Hi1, Hi0. reflexivity. }
  assert (Hp : exists p, @get_registration_parameters _ TMw s1 = Ok p).
  { simpl. unfold Affine.get_registration_parameters.
    destruct (normalize s1); eexists; reflexivity. }
  destruct Hp as [p Hp].
  exists s1, p.
  unfold register. rewrite Ht. unfold default_callback.
  rewrite (register_loop_step 1 _ s0 s1 0 [] Hc0 Hs1 eq_refl).
  simpl register_loop. rewrite Hc1. rewrite Hp. reflexivity.
Qed.

Lemma register_callback_iterations_witness :
  exists calls out,
    @register _ (Affine.affine_model (fun _ b => Ok b)) 2 default_callback
              (collapsed_engine (1 / 1000) (Some 1%Z) true)
    = (calls, Some (Ok out))
    /\ map kw_iteration calls
       = map (fun k => (0 + Z.of_nat k + 1)%Z) (seq 0 (iterations out)).
Proof.
  destruct collapsed_run as [s1 [p Hrun]].
  eexists. eexists. split; [exact Hrun |].
  exact (@register_callback_iterations
           _ (Affine.affine_model (fun _ b => Ok b))
           (affine_keeps_control _) 2 default_callback
           (collapsed_engine (1 / 1000) (Some 1%Z) true) _ _ Hrun).
Defined.

Lemma register_at_cap_witness :
  max_iterations (collapsed_engine (1 / 1000) (Some 0%Z) false) = Some 0%Z
  /\ (0 <= iteration (collapsed_engine (1 / 1000) (Some 0%Z) false))%Z
  /\ fst (@register _ (Affine.affine_model solve_1x1) 1 default_callback
                    (collapsed_engine (1 / 1000) (Some 0%Z) false))
     = [].
Proof.
  split; [reflexivity |]. split; [simpl; lia |].
  rewrite (@register_at_cap _ (Affine.affine_model solve_1x1)
             (affine_keeps_control solve_1x1) 0 default_callback
             (collapsed_engine (1 / 1000) (Some 0%Z) false) 0%Z eq_refl);
    [reflexivity | simpl; lia].
Defined.

(** ** The affine updates *)



Section AffineRuns.

Variable linalg_solve : matrix -> matrix -> result matrix.

Lemma register_loop_count {T : Type} `{TM : TransformModel T}
      (cb : callback) (fuel : nat) :
  forall (s : EMRegistration T) (n : nat) (log log' : list kwargs)
         (s' : EMRegistration T) (n' : nat),
    register_loop fuel cb s n log = (log', Some (Ok (s', n'))) ->
    (n <= n')%nat /\ (loop_condition s = true -> (S n <= n')%nat).
Proof.
  induction fuel as [| fuel IH]; intros s n log log' s' n' H;
    [discriminate H |].
  simpl in H. destruct (loop_condition s).
  - destruct (iterate s) as [s1 | e]; [| discriminate H].
    destruct cb as [f |].
    + destruct (f (callback_kwargs s1)) as [u | e]; [| discriminate H].
      apply IH in H. destruct H as [Hn _]. split; [lia | intros _; exact Hn].
    + apply IH in H. destruct H as [Hn _]. split; [lia | intros _; exact Hn].
  - injection H as <- <- <-. split; [lia | discriminate].
Qed.

(** An engine at which the loop stops at once: [register] applies the
    current transform and returns it. *)
Lemma register_without_pass {T : Type} `{TM : TransformModel T}
      (fuel : nat) (cb : callback) (s s0 : EMRegistration T) :
  transform_point_cloud s = Ok s0 ->
  loop_condition s0 = false ->
  register (S fuel) cb s
  = ([], Some (p <- get_registration_parameters s0 ;;
               Ok {| final := s0; iterations := 0;
                     returned := (get_transformed_points s0, p) |})).
Proof.
  intros Ht Hc. unfold register. rewrite Ht. simpl. rewrite Hc.
  reflexivity.
Qed.

(** X8: an affine engine whose [diff] is [xp.inf], as the constructor
    leaves it, and whose counter is below the cap (or that has no cap):
    - when the tolerance is a real number, or the cap is forced,
      [register] makes at least one pass through the loop body before it
      returns;
    - when the tolerance is [inf] or [nan], which the constructor
      accepts, and the cap is not forced, [register] makes no pass: it
      applies the current transform, never calls the callback, and
      returns the points of that cloud. *)
Theorem affine_register_first_pass (fuel : nat) (cb : callback)
        (s : Affine.engine) :
  diff s = Inf ->
  match max_iterations s with
  | None => True
  | Some c => (iteration s < c)%Z
  end ->
  (forall calls out,
      (exists t, tolerance s = Fin t) \/ forced s ->
      @register _ (Affine.affine_model linalg_solve) fuel cb s
      = (calls, Some (Ok out)) ->
      (1 <= iterations out)%nat)
  /\ (tolerance s = Inf \/ tolerance s = NaN ->
      ~ forced s ->
      exists s0,
        Affine.transform_point_cloud s = Ok s0
        /\ @register _ (Affine.affine_model linalg_solve) (S fuel) cb s
           = ([], Some (p <- Affine.get_registration_parameters s0 ;;
                        Ok {| final := s0; iterations := 0;
                              returned :=
                                (get_transformed_points s0, p) |}))).
Proof.
  intros Hdiff Hcap. split.
  - intros calls out Hgo H. unfold register in H.
    simpl transform_point_cloud in H.
    unfold Affine.transform_point_cloud in H.
    match type of H with
    | context [register_loop fuel cb ?st 0 []] => set (s0 := st) in *
    end.
    assert (Hc : @loop_condition _ s0 = true).
    { unfold loop_condition, s0. simpl. rewrite Hdiff.
      destruct Hgo as [[t Ht] | [Hm Hf]].
      - rewrite Ht. unfold ereal_gtb. simpl. rewrite orb_true_r.
        destruct (max_iterations s) as [c |]; [| reflexivity].
        apply Z.ltb_lt in Hcap. rewrite Hcap. reflexivity.
      - rewrite Hf.
        destruct (max_iterations s) as [c |]; [| contradiction].
        apply Z.ltb_lt in Hcap. rewrite Hcap. reflexivity. }
    destruct (register_loop fuel cb s0 0 []) as [log [[[s' n] | e] |]]
      eqn:Hloop; try discriminate H.
    destruct (get_registration_parameters s') as [p | e]; simpl in H;
      [| discriminate H].
    injection H as _ <-. simpl.
    apply register_loop_count in Hloop. destruct Hloop as [_ Hn].
    apply Hn. exact Hc.
  - intros Htol Hnf. unfold forced in Hnf. eexists. split; [reflexivity |].
    apply (@register_without_pass _ (Affine.affine_model linalg_solve));
      [reflexivity |].
    unfold loop_condition. simpl. rewrite Hdiff.
    assert (Hgt : ereal_gtb Inf (tolerance s) = false)
      by (destruct Htol as [-> | ->]; reflexivity).
    rewrite Hgt, orb_false_r.
    destruct (max_iterations s) as [c |]; [| reflexivity].
    destruct (force_max_iterations s) eqn:Hf;
      [| simpl; apply andb_false_r].
    exfalso. apply Hnf. split; [discriminate | reflexivity].
Qed.

End AffineRuns.

Lemma affine_register_first_pass_witness :
  exists calls out,
    diff (collapsed_engine (1 / 1000) (Some 1%Z) true) = Inf
    /\ (iteration (collapsed_engine (1 / 1000) (Some 1%Z) true) < 1)%Z
    /\ tolerance (collapsed_engine (1 / 1000) (Some 1%Z) true)
       = Fin (1 / 1000)
    /\ @register _ (Affine.affine_model (fun _ b => Ok b)) 2 default_callback
                 (collapsed_engine (1 / 1000) (Some 1%Z) true)
       = (calls, Some (Ok out))
    /\ (1 <= iterations out)%nat.
Proof.
  destruct collapsed_run as [s1 [p Hrun]].
  exists [callback_kwargs s1].
  exists {| final := s1; iterations := 1;
            returned := (get_transformed_points s1, p) |}.
  split; [reflexivity |]. split; [simpl; lia |]. split; [reflexivity |].
  split; [exact Hrun |].
  assert (Hcap : match max_iterations
                         (collapsed_engine (1 / 1000) (Some 1%Z) true) with
                 | None => True
                 | Some c =>
                   (iteration (collapsed_engine (1 / 1000) (Some 1%Z) true)
                    < c)%Z
                 end) by (simpl; lia).
  apply (proj1 (affine_register_first_pass (fun _ b => Ok b) 2
                  default_callback
                  (collapsed_engine (1 / 1000) (Some 1%Z) true)
                  eq_refl Hcap)
               [callback_kwargs s1]
               {| final := s1; iterations := 1;
                  returned := (get_transformed_points s1, p) |});
    [left; exists (1 / 1000); reflexivity | exact Hrun].
Defined.

(** ** More on construction *)

Lemma init_Ok_witness :
  exists s w,
    EMRegistration_init (guided_args PyNone) = Ok (s, w)
    /\ landmark_guided s = true
    /\ iteration s = 0%Z.
Proof.
  eexists. eexists. split; [reflexivity |].
  destruct (init_Ok (guided_args PyNone) _ _ eq_refl)
    as [Hg [_ [_ [_ [Hi _]]]]].
  split; [exact Hg | exact Hi].
Defined.

Lemma real_attr_Ok (v : ereal) (r : R) : real_attr v = Ok r -> v = Fin r.
Proof.
  destruct v as [x | | |]; simpl; intros H; try discriminate H.
  injection H as <-. reflexivity.
Qed.

(** What the three tests of the validation block let through: [v <= 0]
    is false of the positive numbers, of [inf] and of [nan]; [v < 0] is
    false of the non-negative numbers, of [inf] and of [nan]; [v < 0 or
    v >= 1] is false of the numbers of [[0, 1)] and of [nan]. *)
Lemma leb0_false (v : ereal) :
  leb0 v = false <-> (exists r, v = Fin r /\ 0 < r) \/ v = Inf \/ v = NaN.
Proof.
  unfold leb0, ereal_leb. destruct v as [x | | |].
  - destruct (Rle_dec x 0) as [Hle | Hgt]; split; intros H.
    + discriminate H.
    + destruct H as [[r [Hr Hpos]] | [H | H]]; try discriminate H.
      injection Hr as <-. lra.
    + left. exists x. split; [reflexivity | lra].
    + reflexivity.
  - split; [intros _; right; left; reflexivity | reflexivity].
  - split; [discriminate |].
    intros [[r [Hr _]] | [H | H]]; discriminate.
  - split; [intros _; right; right; reflexivity | reflexivity].
Qed.

Lemma ltb0_false (v : ereal) :
  ltb0 v = false <-> (exists r, v = Fin r /\ 0 <= r) \/ v = Inf \/ v = NaN.
Proof.
  unfold ltb0, ereal_ltb. destruct v as [x | | |].
  - destruct (Rlt_dec x 0) as [Hlt | Hge]; split; intros H.
    + discriminate H.
    + destruct H as [[r [Hr Hpos]] | [H | H]]; try discriminate H.
      injection Hr as <-. lra.
    + left. exists x. split; [reflexivity | lra].
    + reflexivity.
  - split; [intros _; right; left; reflexivity | reflexivity].
  - split; [discriminate |].
    intros [[r [Hr _]] | [H | H]]; discriminate.
  - split; [intros _; right; right; reflexivity | reflexivity].
Qed.

Lemma unit_interval_false (v : ereal) :
  ltb0 v || geb1 v = false <-> (exists r, v = Fin r /\ 0 <= r < 1) \/ v = NaN.
Proof.
  unfold ltb0, geb1, ereal_ltb, ereal_leb. destruct v as [x | | |].
  - destruct (Rlt_dec x 0) as [Hlt | Hge];
      destruct (Rle_dec 1 x) as [Hle | Hgt]; simpl; split; intros H;
        try discriminate H; try reflexivity;
        try (destruct H as [[r [Hr Hpos]] | H]; [| discriminate H];
             injection Hr as <-; lra).
    left. exists x. split; [reflexivity | lra].
  - simpl. split; [discriminate |].
    intros [[r [Hr _]] | H]; discriminate.
  - simpl. split; [discriminate |].
    intros [[r [Hr _]] | H]; discriminate.
  - simpl. split; [intros _; right; reflexivity | reflexivity].
Qed.

Lemma check_max_iterations_nonneg (v v' : pyobj) (w : list warning) (c : Z) :
  check_max_iterations v = Ok (v', w) -> cap_of v' = Some c -> (0 <= c)%Z.
Proof.
  unfold check_max_iterations.
  destruct v as [| z | [x | | |] |]; simpl.
  - intros H. injection H as <- _. discriminate.
  - destruct (z <? 0)%Z eqn:Hz; [discriminate |].
    intros H. injection H as <- _. simpl. intros Hc. injection Hc as <-.
    apply Z.ltb_ge. exact Hz.
  - destruct (Qlt_le_dec x 0) as [Hneg | Hpos]; [discriminate |].
    simpl. intros H. injection H as <- _. simpl. intros Hc.
    injection Hc as <-.
    rewrite (Qtrunc_nonneg x Hpos).
    change 0%Z with (Qfloor 0). apply Qfloor_resp_le. exact Hpos.
  - discriminate.
  - discriminate.
  - discriminate.
  - discriminate.
Qed.

(** X9: every engine the constructor returns with [ss2], the outlier
    weight and [sigma2] real numbers, as every engine of the embedding has
    them, keeps the values it was given and has them in range: [ss2 > 0],
    the outlier weight in [[0, 1)], a given [sigma2] positive; its
    tolerance is the one given and is not below 0: a non-negative number,
    or one of [inf] and [nan], which the test [tolerance < 0] lets
    through; the cap, when there is one, is not negative; there is at
    least one landmark; and the force flag is on only when a cap is set
    and forcing was asked for. *)
Theorem init_ranges (a : init_args) (s : EMRegistration unit)
        (w : list warning) :
  EMRegistration_init a = Ok (s, w) ->
  (default (Fin (1 / 10)) (arg_ss2 a) = Fin (ss2 s) /\ 0 < ss2 s)
  /\ (default (Fin 0) (arg_outliers a) = Fin (outliers s)
      /\ 0 <= outliers s < 1)
  /\ (tolerance s = default (Fin (1 / 1000)) (arg_tolerance a)
      /\ ((exists t, tolerance s = Fin t /\ 0 <= t)
          \/ tolerance s = Inf \/ tolerance s = NaN))
  /\ (forall c, max_iterations s = Some c -> (0 <= c)%Z)
  /\ (forall v, arg_sigma2 a = Some v -> v = Fin (sigma2 s) /\ 0 < sigma2 s)
  /\ (1 <= K s)%nat
  /\ (force_max_iterations s = true ->
      max_iterations s <> None /\ arg_force_max_iterations a = Some true).
Proof.
  intros H. unfold EMRegistration_init in H.
  step_binds H. injection H as <- _.
  name_record s0 Hs0 s2 Hdef. clear Hdef.
  destruct (init_pipeline s0 s2)
    as [[_ [_ [_ [_ HK]]]] [[Hss [Ho [Ht [Hm Hf]]]]
         [[_ [_ [_ [_ Hs2]]]] _]]].
  rewrite HK, Hss, Ho, Ht, Hm, Hf, Hs2.
  assert (H0 : ss2 s0 = a17
               /\ outliers s0 = a18
               /\ tolerance s0 = default (Fin (1 / 1000)) (arg_tolerance a)
               /\ max_iterations s0 = cap_of (fst a6)
               /\ K s0 = a14
               /\ force_max_iterations s0
                  = match arg_force_max_iterations a, cap_of (fst a6) with
                    | Some f, Some _ => f
                    | _, _ => false
                    end)
    by (rewrite Hs0; repeat split).
  destruct H0 as [-> [-> [-> [-> [-> ->]]]]].
  clear Hs0 Hs2.
  apply raise_if_Ok in E4, E6, E7, E8.
  apply real_attr_Ok in E16, E17.
  split; [| split; [| split; [| split; [| split; [| split]]]]].
  - split; [exact E16 |].
    destruct (arg_ss2 a) as [v |]; simpl in E8, E16.
    + subst v. apply leb0_false in E8.
      destruct E8 as [[r [Hr Hpos]] | [H | H]]; try discriminate H.
      injection Hr as <-. exact Hpos.
    + injection E16 as <-. lra.
  - split; [exact E17 |].
    destruct (arg_outliers a) as [v |]; simpl in E7, E17.
    + subst v. apply unit_interval_false in E7.
      destruct E7 as [[r [Hr Hpos]] | H]; [| discriminate H].
      injection Hr as <-. exact Hpos.
    + injection E17 as <-. lra.
  - split; [reflexivity |].
    destruct (arg_tolerance a) as [v |]; simpl in E6 |- *.
    + apply ltb0_false in E6. exact E6.
    + left. exists (1 / 1000). split; [reflexivity | lra].
  - intros c Hc. destruct a6 as [v' w']. simpl in Hc.
    apply (check_max_iterations_nonneg _ _ _ _ E5 Hc).
  - intros v Hv. rewrite Hv in E4, E18. simpl in E4.
    apply real_attr_Ok in E18. split; [exact E18 |].
    subst v. apply leb0_false in E4.
    destruct E4 as [[r [Hr Hpos]] | [H | H]]; try discriminate H.
    injection Hr as <-. exact Hpos.
  - destruct (landmark_checks _ _ _ _ _ E9 E10 E12) as [-> [k [Hk Hk1]]].
    rewrite Hk in E13. injection E13 as <-. exact Hk1.
  - intros Hf'.
    destruct (arg_force_max_iterations a) as [f |]; [| discriminate Hf'].
    destruct (cap_of (fst a6)); [| discriminate Hf'].
    subst f. split; [discriminate | reflexivity].
Qed.

(** A call with every hyper-parameter given and in range is accepted. *)
Lemma tuned_args_accepted :
  exists s w,
    EMRegistration_init
      (tuned_args (Some (Fin 2)) (Some (Fin (1 / 100))) (Some (Fin (1 / 2)))
                  (Some (Fin 3)) (PyInt 5) (Some true))
    = Ok (s, w).
Proof.
  unfold EMRegistration_init.
  cbn [tuned_args arg_sigma2 arg_tolerance arg_outliers arg_ss2].
  replace (given_and leb0 (Some (Fin 2))) with false
    by (symmetry; apply leb0_false; left; exists 2;
        split; [reflexivity | lra]).
  replace (given_and ltb0 (Some (Fin (1 / 100)))) with false
    by (symmetry; apply ltb0_false; left; exists (1 / 100);
        split; [reflexivity | lra]).
  replace (given_and (fun w => ltb0 w || geb1 w) (Some (Fin (1 / 2))))
    with false
    by (symmetry; apply unit_interval_false; left; exists (1 / 2);
        split; [reflexivity | lra]).
  replace (given_and leb0 (Some (Fin 3))) with false
    by (symmetry; apply leb0_false; left; exists 3;
        split; [reflexivity | lra]).
  eexists. eexists. reflexivity.
Qed.

Lemma init_ranges_witness :
  exists s w,
    EMRegistration_init
      (tuned_args (Some (Fin 2)) (Some (Fin (1 / 100))) (Some (Fin (1 / 2)))
                  (Some (Fin 3)) (PyInt 5) (Some true))
    = Ok (s, w)
    /\ ss2 s = 3 /\ outliers s = 1 / 2 /\ tolerance s = Fin (1 / 100)
    /\ sigma2 s = 2 /\ 0 < ss2 s /\ 0 <= outliers s < 1 /\ 0 < sigma2 s
    /\ (1 <= K s)%nat.
Proof.
  destruct tuned_args_accepted as [s [w H]].
  exists s, w. split; [exact H |].
  destruct (init_ranges _ s w H)
    as [[Hss Hss0] [[Hw Hw0] [[Htol _] [_ [Hs2 [HK _]]]]]].
  destruct (Hs2 (Fin 2) eq_refl) as [Hv Hv0].
  cbn [tuned_args arg_ss2 arg_outliers arg_tolerance default]
    in Hss, Hw, Htol.
  injection Hss as Hss. injection Hw as Hw. injection Hv as Hv.
  repeat split; try assumption; try lra.
Defined.




(** ** The clouds of a new engine *)

Lemma zipWith_minus_zeros (row : vec) (n : nat) :
  length row = n ->
  map (fun v => v / 1) (zipWith Rminus row (zeros n)) = row.
Proof.
  revert n. unfold zeros.
  induction row as [| x row IH]; intros [| n] Hn; simpl in *;
    try discriminate; [reflexivity |].
  f_equal; [field | apply IH; lia].
Qed.

Lemma mean_axis0_length (c : nat) (A0 : matrix) :
  length (mean_axis0 c A0) = c.
Proof.
  unfold mean_axis0, sum_axis0. rewrite !length_map. apply length_seq.
Qed.

Lemma shape_at_Nd2 (x : ndarray) (d : nat) :
  Nat.eqb (ndim x) 2 = true -> shape_at x 1 = Ok d ->
  x = Nd2 d (rows_of x).
Proof.
  destruct x as [| v | c rows | n0 n1 n2 rest]; simpl; try discriminate.
  intros _ H. unfold shape_at in H. simpl in H. injection H as <-.
  reflexivity.
Qed.

Lemma concatenate_prefix (c : nat) (A0 : matrix) (b : ndarray) (r : matrix) :
  concatenate c A0 b = Ok r -> firstn (length A0) r = A0.
Proof.
  unfold concatenate. destruct b as [| v | c' rows | n0 n1 n2 rest];
    try discriminate.
  destruct (Nat.eqb c c'); [| discriminate].
  intros H. injection H as <-. apply firstn_app_length.
Qed.

Lemma normalize_fn_firstn (env : norm_env) (data : matrix) (mode : string)
      (invert : bool) (n : nat) :
  firstn n (normalize_fn env data mode invert)
  = normalize_fn env (firstn n data) mode invert.
Proof.
  unfold normalize_fn, mat_map, mat_rowop.
  destruct invert; rewrite !firstn_map; reflexivity.
Qed.

Lemma normalization_off {T : Type} (s0 : EMRegistration T) :
  normalize s0 = false ->
  normalize_params (calculateNormalizationParams s0)
  = {| X_mean := zeros (D s0); Y_mean := zeros (D s0);
       X_scale := 1; Y_scale := 1 |}.
Proof.
  intros Hn. unfold calculateNormalizationParams. rewrite Hn. reflexivity.
Qed.

Lemma normalization_joint {T : Type} (s0 : EMRegistration T) :
  normalize s0 = true ->
  normalize_joint s0 = true ->
  X_mean (normalize_params (calculateNormalizationParams s0))
  = Y_mean (normalize_params (calculateNormalizationParams s0))
  /\ X_scale (normalize_params (calculateNormalizationParams s0))
     = Y_scale (normalize_params (calculateNormalizationParams s0))
  /\ length (Y_mean (normalize_params (calculateNormalizationParams s0)))
     = D s0.
Proof.
  intros Hn Hj. unfold calculateNormalizationParams. rewrite Hn, Hj.
  cbn [assign_normalization normalize_params X_mean Y_mean X_scale Y_scale].
  split; [reflexivity |]. split; [reflexivity |].
  apply mean_axis0_length.
Qed.

(** What the constructor stores of the two clouds. *)
Lemma init_clouds (a : init_args) (s : EMRegistration unit)
      (w : list warning) :
  EMRegistration_init a = Ok (s, w) ->
  let env := normalize_params s in
  asarray (arg_X a) = Nd2 (D s) (rows_of (asarray (arg_X a)))
  /\ asarray (arg_Y a) = Nd2 (D s) (rows_of (asarray (arg_Y a)))
  /\ normalize s = default false (arg_normalize a)
  /\ normalize_fncts s = env
  /\ X_points s = normalize_fn env (rows_of (asarray (arg_X a))) "X" false
  /\ Y_points s = normalize_fn env (rows_of (asarray (arg_Y a))) "Y" false
  /\ firstn (M s) (TY_points_and_landmarks s)
     = normalize_fn env (rows_of (asarray (arg_Y a))) "Y" false
  /\ (default false (arg_normalize a) = false ->
      env = {| X_mean := zeros (D s); Y_mean := zeros (D s);
               X_scale := 1; Y_scale := 1 |})
  /\ (default false (arg_normalize a) = true ->
      default false (arg_normalize_joint a) = true ->
      X_mean env = Y_mean env /\ X_scale env = Y_scale env
      /\ length (Y_mean env) = D s).
Proof.
  intros H. unfold EMRegistration_init in H.
  step_binds H. injection H as <- _.
  name_record s0 Hs0 s2 Hs2. clear Hs2.
  destruct (init_pipeline s0 s2)
    as [[_ [_ [HM [HD _]]]] [_ [[_ [Hn _]]
         [Hf [Hp [HX [HY [HT _]]]]]]]].
  cbv zeta. rewrite HM, HD, Hn, Hf, HX, HY, HT, Hp.
  assert (H0 : D s0 = a2
               /\ M s0 = length (rows_of (asarray (arg_Y a)))
               /\ normalize s0 = default false (arg_normalize a)
               /\ normalize_joint s0 = default false (arg_normalize_joint a)
               /\ X_points s0 = rows_of (asarray (arg_X a))
               /\ Y_points s0 = rows_of (asarray (arg_Y a))
               /\ TY_points_and_landmarks s0 = a16)
    by (rewrite Hs0; repeat split).
  destruct H0 as [HD0 [HM0 [Hn0 [Hj0 [HX0 [HY0 HT0]]]]]].
  clear Hs0.
  apply raise_if_Ok in E, E0, E3.
  apply negb_false_iff in E, E0, E3. apply Nat.eqb_eq in E3. subst a3.
  rewrite HD0, HM0, HX0, HY0, HT0.
  split; [apply shape_at_Nd2; assumption |].
  split; [apply shape_at_Nd2; assumption |].
  split; [exact Hn0 |]. split; [reflexivity |].
  split; [reflexivity |]. split; [reflexivity |].
  split.
  { rewrite normalize_fn_firstn.
    rewrite (concatenate_prefix _ _ _ _ E15). reflexivity. }
  split.
  - intros Hoff. rewrite <- HD0. apply normalization_off. congruence.
  - intros Hon Hjoint. rewrite <- HD0.
    apply normalization_joint; congruence.
Qed.

(** X10: when normalization is left off, the constructor stores the two
    clouds as they were given, and [get_transformed_points] of the new
    engine returns the source points as given. *)
Theorem init_without_normalization (a : init_args) (s : EMRegistration unit)
        (w : list warning) :
  EMRegistration_init a = Ok (s, w) ->
  default false (arg_normalize a) = false ->
  arg_rect (arg_X a) ->
  arg_rect (arg_Y a) ->
  X_points s = rows_of (asarray (arg_X a))
  /\ Y_points s = rows_of (asarray (arg_Y a))
  /\ get_transformed_points s = rows_of (asarray (arg_Y a)).
Proof.
  intros H Hn HX HY.
  destruct (init_clouds a s w H)
    as [HXa [HYa [Hnorm [_ [HXp [HYp [HTY [Henv _]]]]]]]].
  specialize (Henv Hn).
  unfold arg_rect in HX, HY. rewrite HXa in HX. rewrite HYa in HY.
  assert (Hid : forall rows mode, rect (D s) rows ->
            normalize_fn (normalize_params s) rows mode false = rows).
  { intros rows mode Hr. rewrite Henv.
    unfold normalize_fn, env_mean, env_scale, mat_map, mat_rowop.
    destruct (String.eqb mode "X"); cbn [X_mean Y_mean X_scale Y_scale];
      rewrite map_map; rewrite <- (map_id rows) at 2;
      apply map_ext_in; intros row Hrow;
      apply zipWith_minus_zeros;
      unfold rect in Hr; rewrite Forall_forall in Hr; apply Hr; exact Hrow. }
  split; [rewrite HXp; apply Hid; exact HX |].
  split; [rewrite HYp; apply Hid; exact HY |].
  unfold get_transformed_points. rewrite Hnorm, Hn, HTY.
  apply Hid. exact HY.
Qed.

Lemma init_without_normalization_witness :
  exists s w,
    EMRegistration_init (guided_args PyNone) = Ok (s, w)
    /\ default false (arg_normalize (guided_args PyNone)) = false
    /\ arg_rect (arg_X (guided_args PyNone))
    /\ arg_rect (arg_Y (guided_args PyNone))
    /\ get_transformed_points s = square.
Proof.
  assert (Hr : rect 2 square) by (repeat constructor).
  eexists. eexists. split; [reflexivity |].
  split; [reflexivity |]. split; [exact Hr |]. split; [exact Hr |].
  destruct (init_without_normalization (guided_args PyNone) _ _ eq_refl
              eq_refl Hr Hr) as [_ [_ Hg]].
  exact Hg.
Defined.

(** X11: when the two clouds are normalized jointly, with a nonzero scale,
    [get_transformed_points] of the new engine returns the source points
    as given: the inverse map with the target's parameters undoes the
    forward map with the source's, the two being the same. *)
Theorem init_joint_normalization (a : init_args) (s : EMRegistration unit)
        (w : list warning) :
  EMRegistration_init a = Ok (s, w) ->
  default false (arg_normalize a) = true ->
  default false (arg_normalize_joint a) = true ->
  X_scale (normalize_params s) <> 0 ->
  arg_rect (arg_Y a) ->
  X_mean (normalize_params s) = Y_mean (normalize_params s)
  /\ X_scale (normalize_params s) = Y_scale (normalize_params s)
  /\ get_transformed_points s = rows_of (asarray (arg_Y a)).
Proof.
  intros H Hn Hj Hs HY.
  destruct (init_clouds a s w H)
    as [_ [HYa [Hnorm [Hf [_ [_ [HTY [_ Henv]]]]]]]].
  destruct (Henv Hn Hj) as [Hmean [Hscale Hlen]].
  split; [exact Hmean |]. split; [exact Hscale |].
  unfold arg_rect in HY. rewrite HYa in HY.
  unfold get_transformed_points. rewrite Hnorm, Hn, HTY, Hf.
  unfold denormalize_fn, normalize_fn, env_mean, env_scale, mat_map,
    mat_rowop.
  cbn [String.eqb Ascii.eqb Bool.eqb].
  rewrite Hmean, Hscale. rewrite !map_map.
  rewrite <- (map_id (rows_of (asarray (arg_Y a)))) at 2.
  apply map_ext_in. intros row Hrow.
  apply denormalize_row; [rewrite <- Hscale; exact Hs |].
  rewrite Hlen. unfold rect in HY. rewrite Forall_forall in HY.
  apply HY. exact Hrow.
Qed.

Lemma sum_pos_member (l : vec) (v : R) :
  Forall (fun x => 0 <= x) l -> In v l -> 0 < v -> 0 < sum l.
Proof.
  induction 1 as [| x l Hx Hl IH]; intros Hin Hv; [contradiction |].
  cbn [sum fold_right]. fold (sum l).
  pose proof (sum_nonneg l Hl) as Hs.
  destruct Hin as [-> | Hin]; [lra |].
  specialize (IH Hin Hv). lra.
Qed.

(** The scale of a cloud with a nonzero centered entry is positive. *)
Lemma rms_scale_pos (A0 : matrix) (n : nat) (row : vec) (v : R) :
  (0 < n)%nat -> In row A0 -> In v row -> v <> 0 -> 0 < rms_scale A0 n.
Proof.
  intros Hn Hrow Hv Hne. unfold rms_scale. apply sqrt_lt_R0.
  apply Rdiv_lt_0_compat; [| apply lt_0_INR; exact Hn].
  assert (Hsq : forall r : vec, Forall (fun x => 0 <= x)
                                       (map (fun x => x * x) r)).
  { intros r. rewrite Forall_forall. intros x Hx.
    apply in_map_iff in Hx. destruct Hx as [y [<- _]]. nra. }
  apply (sum_pos_member _ (sum (map (fun x => x * x) row))).
  - unfold sum_axis1, mat_map. rewrite map_map.
    rewrite Forall_forall. intros x Hx.
    apply in_map_iff in Hx. destruct Hx as [r [<- _]].
    apply sum_nonneg. apply Hsq.
  - unfold sum_axis1, mat_map. rewrite map_map.
    apply in_map_iff. exists row. split; [reflexivity | exact Hrow].
  - apply (sum_pos_member _ (v * v)); [apply Hsq | | nra].
    apply in_map_iff. exists v. split; [reflexivity | exact Hv].
Qed.

Lemma joint_args_scale :
  exists s w,
    EMRegistration_init joint_args = Ok (s, w)
    /\ X_scale (normalize_params s) <> 0.
Proof.
  eexists. eexists. split; [reflexivity |].
  match goal with
  | |- context [calculateNormalizationParams ?r] => set (s0 := r)
  end.
  match goal with
  | |- context [set_variance Inf ?v Inf _] => generalize v; intros s2
  end.
  destruct (init_pipeline s0 s2) as [_ [_ [_ [_ [Hp _]]]]].
  rewrite Hp. unfold calculateNormalizationParams.
  cbv beta iota zeta delta
      [s0 joint_args default arg_normalize arg_normalize_joint normalize
       normalize_joint assign_normalization normalize_params X_scale
       X_points_and_landmarks Y_points_and_landmarks D arg_X arg_Y asarray
       rows_of app mat_rowop map zipWith length Nat.add mean_axis0
       sum_axis0 seq col nth].
  match goal with
  | |- rms_scale ?A0 ?n <> 0 =>
    assert (Hpos : 0 < rms_scale A0 n); [| lra]
  end.
  eapply rms_scale_pos;
    [lia | right; left; reflexivity | left; reflexivity |].
  cbv [sum fold_right]. replace (INR 6) with 6 by (simpl; lra). lra.
Qed.

Lemma init_joint_normalization_witness :
  exists s w,
    EMRegistration_init joint_args = Ok (s, w)
    /\ X_scale (normalize_params s) <> 0
    /\ arg_rect (arg_Y joint_args)
    /\ get_transformed_points s = [[0]; [2]].
Proof.
  destruct joint_args_scale as [s [w [Hs Hscale]]].
  assert (Hr : arg_rect (arg_Y joint_args)) by (repeat constructor).
  exists s, w. split; [exact Hs |]. split; [exact Hscale |].
  split; [exact Hr |].
  destruct (init_joint_normalization joint_args s w Hs eq_refl eq_refl
              Hscale Hr) as [_ [_ Hg]].
  exact Hg.
Defined.

(** ** The initial affine transform *)

Lemma delta_dot (row : vec) (j a : nat) :
  sum (zipWith Rmult row
               (map (fun i => if Nat.eqb i j then 1 else 0)
                    (seq a (length row))))
  = if (a <=? j)%nat && (j <? a + length row)%nat
    then nth (j - a) row 0 else 0.
Proof.
  revert a. induction row as [| x row IH]; intros a.
  - simpl. destruct ((a <=? j)%nat && (j <? a + 0)%nat) eqn:H;
      [| reflexivity].
    apply andb_prop in H. destruct H as [H1 H2].
    apply Nat.leb_le in H1. apply Nat.ltb_lt in H2. lia.
  - cbn [length seq map zipWith sum fold_right].
    fold (sum (zipWith Rmult row
                 (map (fun i => if Nat.eqb i j then 1 else 0)
                      (seq (S a) (length row))))).
    rewrite IH.
    destruct (Nat.eqb_spec a j) as [-> | Hne].
    + rewrite Nat.leb_refl, Nat.sub_diag.
      replace (j <? j + S (length row))%nat with true
        by (symmetry; apply Nat.ltb_lt; lia).
      replace (S j <=? j)%nat with false
        by (symmetry; apply Nat.leb_gt; lia).
      simpl. lra.
    + destruct (a <=? j)%nat eqn:H1.
      * apply Nat.leb_le in H1.
        replace (S a <=? j)%nat with true
          by (symmetry; apply Nat.leb_le; lia).
        replace (j <? S a + length row)%nat
          with (j <? a + S (length row))%nat
          by (f_equal; lia).
        simpl. destruct (j <? a + S (length row))%nat.
        -- replace (j - a)%nat with (S (j - S a)) by lia. simpl. lra.
        -- lra.
      * apply Nat.leb_gt in H1.
        replace (S a <=? j)%nat with false
          by (symmetry; apply Nat.leb_gt; lia).
        simpl. lra.
Qed.

Lemma identity_col (n j : nat) :
  (j < n)%nat ->
  col j (identity n) = map (fun i => if Nat.eqb i j then 1 else 0) (seq 0 n).
Proof.
  intros Hj. unfold col, identity. rewrite map_map.
  apply map_ext. intros i.
  rewrite (nth_indep _ 0 (if Nat.eqb i 0 then 1 else 0))
    by (rewrite length_map, length_seq; exact Hj).
  rewrite (map_nth (fun j' => if Nat.eqb i j' then 1 else 0) (seq 0 n) 0%nat).
  rewrite seq_nth by exact Hj. reflexivity.
Qed.

(** [xp.dot(Y, xp.eye(D))] is [Y]. *)
Lemma dot_identity (n : nat) (Y : matrix) :
  rect n Y -> dot n Y (identity n) = Y.
Proof.
  intros HY. unfold dot. rewrite <- (map_id Y) at 2.
  apply map_ext_in. intros row Hrow.
  unfold rect in HY. rewrite Forall_forall in HY.
  specialize (HY row Hrow).
  transitivity (map (fun j => nth j row 0) (seq 0 n));
    [| apply map_nth_seq_0; exact HY].
  apply map_ext_in. intros j Hj. apply in_seq in Hj.
  rewrite identity_col by lia. unfold vdot.
  rewrite <- HY. rewrite delta_dot.
  replace (0 <=? j)%nat with true by (symmetry; apply Nat.leb_le; lia).
  replace (j <? 0 + length row)%nat with true
    by (symmetry; apply Nat.ltb_lt; lia).
  simpl. rewrite Nat.sub_0_r. reflexivity.
Qed.

Lemma zipWith_plus_zeros (row : vec) (n : nat) :
  length row = n -> zipWith Rplus row (zeros n) = row.
Proof.
  revert n. unfold zeros.
  induction row as [| x row IH]; intros [| n] Hn; simpl in *;
    try discriminate; [reflexivity |].
  f_equal; [lra | apply IH; lia].
Qed.

(** With [B] the identity and [t] zero, [transform_point_cloud] stores the
    source cloud itself. *)
Lemma affine_identity_transform (s s' : Affine.engine) :
  Affine.B (model s) = identity (D s) ->
  Affine.t (model s) = zeros (D s) ->
  rect (D s) (Y_points_and_landmarks s) ->
  (length (Y_points_and_landmarks s) <= M s + K s)%nat ->
  Affine.transform_point_cloud s = Ok s' ->
  TY_points_and_landmarks s' = Y_points_and_landmarks s.
Proof.
  intros HB Ht HY Hlen H. unfold Affine.transform_point_cloud in H.
  injection H as <-. cbn [set_TY assign TY_points_and_landmarks].
  rewrite HB, Ht, (dot_identity _ _ HY).
  unfold mat_zip, tile. rewrite zipWith_repeat by exact Hlen.
  rewrite <- (map_id (Y_points_and_landmarks s)) at 2.
  apply map_ext_in. intros row Hrow.
  apply zipWith_plus_zeros.
  unfold rect in HY. rewrite Forall_forall in HY. apply HY. exact Hrow.
Qed.

Lemma normalization_mean_length {T : Type} (s0 : EMRegistration T)
      (mode : string) :
  length (env_mean (normalize_params (calculateNormalizationParams s0)) mode)
  = D s0.
Proof.
  unfold calculateNormalizationParams, env_mean.
  destruct (normalize s0), (normalize_joint s0), (String.eqb mode "X");
    cbn [assign_normalization normalize_params X_mean Y_mean];
    try apply mean_axis0_length; apply repeat_length.
Qed.

Lemma normalize_fn_rect (env : norm_env) (data : matrix) (mode : string)
      (n : nat) :
  length (env_mean env mode) = n ->
  rect n data ->
  rect n (normalize_fn env data mode false).
Proof.
  intros Hm Hd. unfold rect, normalize_fn, mat_map, mat_rowop in *.
  rewrite Forall_forall in *. intros row Hrow.
  apply in_map_iff in Hrow. destruct Hrow as [r1 [<- Hr1]].
  apply in_map_iff in Hr1. destruct Hr1 as [r0 [<- Hr0]].
  rewrite length_map, zipWith_length, Hm, (Hd r0 Hr0).
  apply Nat.min_id.
Qed.

Lemma concatenate_Ok (c : nat) (A0 : matrix) (b : ndarray) (r : matrix) :
  concatenate c A0 b = Ok r ->
  b = Nd2 c (rows_of b) /\ r = A0 ++ rows_of b.
Proof.
  unfold concatenate. destruct b as [| v | c' rows | n0 n1 n2 rest];
    try discriminate.
  destruct (Nat.eqb_spec c c') as [<- | _]; [| discriminate].
  intros H. injection H as <-. split; reflexivity.
Qed.

(** The source cloud of a new engine: rows of [D] entries, [M + K] of
    them, and the transformed cloud is a copy of it. *)
Lemma init_source_cloud (a : init_args) (s : EMRegistration unit)
      (w : list warning) :
  EMRegistration_init a = Ok (s, w) ->
  arg_rect (arg_Y a) ->
  arg_rect (arg_Y_landmarks a) ->
  rect (D s) (Y_points_and_landmarks s)
  /\ length (Y_points_and_landmarks s) = (M s + K s)%nat
  /\ TY_points_and_landmarks s = Y_points_and_landmarks s.
Proof.
  intros H HY HYl. unfold EMRegistration_init in H.
  step_binds H. injection H as <- _.
  name_record s0 Hs0 s2 Hs2. clear Hs2.
  destruct (init_pipeline s0 s2)
    as [[_ [_ [HM [HD HK]]]] [_ [_ [_ [Hp [_ [_ [HT HYa]]]]]]]].
  rewrite HM, HD, HK, HT, HYa, Hp.
  assert (H0 : D s0 = a2
               /\ M s0 = length (rows_of (asarray (arg_Y a)))
               /\ K s0 = a14
               /\ TY_points_and_landmarks s0 = a16
               /\ Y_points_and_landmarks s0 = a16)
    by (rewrite Hs0; repeat split).
  destruct H0 as [HD0 [HM0 [HK0 [HT0 HY0]]]].
  clear Hs0.
  rewrite HT0, HY0, HM0, HK0, normalize_fn_length.
  destruct (landmark_checks _ _ _ _ _ E9 E10 E12) as [-> [k [Hk _]]].
  rewrite Hk in E13. injection E13 as <-.
  apply raise_if_Ok in E0, E3, E12.
  apply negb_false_iff in E0, E3. apply Nat.eqb_eq in E3. subst a3.
  pose proof (shape_at_Nd2 _ _ E0 E2) as HYnd.
  destruct (concatenate_Ok _ _ _ _ E15) as [HYlnd ->].
  unfold is_not_None in E12. cbn [andb] in E12.
  apply negb_false_iff in E12. unfold shape_eqb in E12.
  destruct (list_eq_dec Nat.eq_dec (shape (asarray (arg_X_landmarks a)))
                        (shape (asarray (arg_Y_landmarks a))))
    as [Hsh | _]; [| discriminate E12].
  unfold shape_at in Hk. rewrite Hsh, HYlnd in Hk. simpl in Hk.
  injection Hk as <-.
  unfold arg_rect in HY, HYl. rewrite HYnd in HY. rewrite HYlnd in HYl.
  split; [| split; [apply length_app | reflexivity]].
  apply normalize_fn_rect.
  - apply normalization_mean_length.
  - rewrite HD0. unfold rect in *. apply Forall_app. split; assumption.
Qed.

(** X12: an affine engine built with the default [B] and [t] starts from
    the identity map: its first [transform_point_cloud] stores the source
    cloud (points and landmarks, normalized) unchanged. *)
Theorem affine_default_transform
        (is_positive_semi_definite : matrix -> bool) (a : init_args)
        (s : Affine.engine) (w : list warning) :
  Affine.init is_positive_semi_definite None None a = Ok (s, w) ->
  arg_rect (arg_Y a) ->
  arg_rect (arg_Y_landmarks a) ->
  exists s',
    Affine.transform_point_cloud s = Ok s'
    /\ TY_points_and_landmarks s' = Y_points_and_landmarks s
    /\ TY_points_and_landmarks s' = TY_points_and_landmarks s.
Proof.
  intros H HY HYl. unfold Affine.init in H.
  apply bind_Ok in H. destruct H as [[sb wb] [Hb H]].
  simpl in H. injection H as <- _.
  destruct (init_source_cloud a sb wb Hb HY HYl) as [Hrect [Hlen HTY]].
  eexists. split; [reflexivity |].
  assert (Hid : TY_points_and_landmarks
                  (set_TY (mat_zip Rplus
                             (dot (D sb) (Y_points_and_landmarks sb)
                                  (identity (D sb)))
                             (tile (zeros (D sb)) (M sb + K sb))) sb)
                = Y_points_and_landmarks sb).
  { cbn [set_TY assign TY_points_and_landmarks].
    rewrite (dot_identity _ _ Hrect).
    unfold mat_zip, tile.
    rewrite zipWith_repeat by (apply Nat.eq_le_incl; exact Hlen).
    rewrite <- (map_id (Y_points_and_landmarks sb)) at 2.
    apply map_ext_in. intros row Hrow. apply zipWith_plus_zeros.
    unfold rect in Hrect. rewrite Forall_forall in Hrect.
    apply Hrect. exact Hrow. }
  split; [exact Hid |].
  cbn [set_model assign TY_points_and_landmarks]. rewrite HTY. exact Hid.
Qed.

Lemma affine_default_transform_witness :
  exists s w s',
    Affine.init (fun _ => true) None None (guided_args PyNone) = Ok (s, w)
    /\ arg_rect (arg_Y (guided_args PyNone))
    /\ arg_rect (arg_Y_landmarks (guided_args PyNone))
    /\ Affine.transform_point_cloud s = Ok s'
    /\ TY_points_and_landmarks s' = TY_points_and_landmarks s.
Proof.
  assert (HY : arg_rect (arg_Y (guided_args PyNone)))
    by (repeat constructor).
  assert (HYl : arg_rect (arg_Y_landmarks (guided_args PyNone)))
    by (repeat constructor).
  eexists. eexists.
  destruct (affine_default_transform (fun _ => true) (guided_args PyNone)
              _ _ eq_refl HY HYl) as [s' [Hs' [_ HT]]].
  exists s'. split; [reflexivity |].
  split; [exact HY |]. split; [exact HYl |].
  split; [exact Hs' | exact HT].
Defined.

(** ** The returned affine parameters *)

Lemma zipWith_map_same {A0 B0 C0 D0 : Type} (h : B0 -> C0 -> D0)
      (f : A0 -> B0) (g : A0 -> C0) (l : list A0) :
  zipWith h (map f l) (map g l) = map (fun x => h (f x) (g x)) l.
Proof.
  induction l as [| x l IH]; simpl; [reflexivity | rewrite IH; reflexivity].
Qed.

Lemma vdot_comm (u v : vec) : vdot u v = vdot v u.
Proof.
  unfold vdot. revert v.
  induction u as [| x u IH]; intros [| y v]; simpl; try reflexivity.
  fold (sum (zipWith Rmult u v)). fold (sum (zipWith Rmult v u)).
  rewrite IH. lra.
Qed.

Lemma vdot_scaled (u c : vec) (a b : R) :
  vdot u (map (fun v => v * a / b) c) = vdot u c * a / b.
Proof.
  unfold vdot. revert c.
  induction u as [| x u IH]; intros [| y c]; simpl;
    try (unfold Rdiv; ring).
  fold (sum (zipWith Rmult u (map (fun v => v * a / b) c))).
  fold (sum (zipWith Rmult u c)).
  rewrite IH. unfold Rdiv. ring.
Qed.

Lemma vdot_normalized (y m c : vec) (k : R) :
  length y = length m ->
  vdot (map (fun v => v / k) (zipWith Rminus y m)) c
  = (vdot y c - vdot m c) / k.
Proof.
  unfold vdot. revert m c.
  induction y as [| x y IH]; intros [| x' m] c Hlen; simpl in *;
    try discriminate.
  - unfold Rdiv. ring.
  - destruct c as [| z c]; simpl; [unfold Rdiv; ring |].
    fold (sum (zipWith Rmult (map (fun v => v / k) (zipWith Rminus y m)) c)).
    fold (sum (zipWith Rmult y c)). fold (sum (zipWith Rmult m c)).
    rewrite IH by lia. unfold Rdiv. ring.
Qed.

Lemma col_mat_map (f : R -> R) (j : nat) (A0 : matrix) :
  f 0 = 0 -> col j (mat_map f A0) = map f (col j A0).
Proof.
  intros Hf. unfold col, mat_map. rewrite !map_map.
  apply map_ext. intros row.
  rewrite <- Hf at 1. apply map_nth.
Qed.

Section DenormalizedParameters.

Variable s : Affine.engine.
Variable Yraw : matrix.

Hypothesis Hnorm : normalize s = true.
Hypothesis Hcloud :
  Y_points_and_landmarks s
  = normalize_fn (normalize_params s) Yraw "Y" false.
Hypothesis Hfncts : normalize_fncts s = normalize_params s.
Hypothesis Hscale : Y_scale (normalize_params s) <> 0.
Hypothesis Hrect : rect (D s) Yraw.
Hypothesis HXm : length (X_mean (normalize_params s)) = D s.
Hypothesis HYm : length (Y_mean (normalize_params s)) = D s.
Hypothesis Ht : length (Affine.t (model s)) = D s.
Hypothesis Hrows : (length Yraw <= M s + K s)%nat.

(** One row of the two sides. *)
Lemma denormalized_row (y : vec) :
  length y = D s ->
  let env := normalize_params s in
  let Bn := Affine.B (model s) in
  let Bd := mat_map (fun v => v * X_scale env / Y_scale env) Bn in
  let td := zipWith Rminus
              (zipWith Rplus (map (fun v => v * X_scale env)
                                  (Affine.t (model s)))
                       (X_mean env))
              (dot_vec (transpose (D s) Bd) (Y_mean env)) in
  zipWith Rplus (map (fun j => vdot y (col j Bd)) (seq 0 (D s))) td
  = zipWith Rplus
      (map (fun v => v * X_scale env)
           (zipWith Rplus
              (map (fun j =>
                      vdot (map (fun v => v / Y_scale env)
                                (zipWith Rminus y (Y_mean env)))
                           (col j Bn))
                   (seq 0 (D s)))
              (Affine.t (model s))))
      (X_mean env).
Proof.
  intros Hy env Bn Bd td. unfold td, dot_vec, transpose.
  rewrite <- (map_nth_seq_0 (Affine.t (model s)) (D s) Ht).
  rewrite <- (map_nth_seq_0 (X_mean env) (D s) HXm).
  rewrite !map_map.
  rewrite !zipWith_map_same. rewrite !map_map.
  rewrite !zipWith_map_same.
  apply map_ext. intros j.
  unfold Bd. rewrite col_mat_map by (unfold Rdiv; ring).
  rewrite vdot_scaled.
  rewrite (vdot_comm (map _ (col j Bn)) (Y_mean env)), vdot_scaled.
  rewrite vdot_normalized by (rewrite Hy; symmetry; exact HYm).
  field. exact Hscale.
Qed.

End DenormalizedParameters.

(** X13: the parameters [get_registration_parameters] returns under
    normalization are those of the map between the original frames: the
    function of [get_transformation_function], applied to the source cloud
    as it was before normalization, gives the denormalized transformed
    cloud, whose first [M] rows are [get_transformed_points]. *)
Theorem affine_transformation_function_on_source
        (s s' : Affine.engine) (Yraw : matrix) :
  normalize s = true ->
  Y_points_and_landmarks s
  = normalize_fn (normalize_params s) Yraw "Y" false ->
  normalize_fncts s = normalize_params s ->
  Y_scale (normalize_params s) <> 0 ->
  rect (D s) Yraw ->
  length (X_mean (normalize_params s)) = D s ->
  length (Y_mean (normalize_params s)) = D s ->
  length (Affine.t (model s)) = D s ->
  (length Yraw <= M s + K s)%nat ->
  Affine.transform_point_cloud s = Ok s' ->
  exists f,
    Affine.get_transformation_function s' = Ok f
    /\ f Yraw
       = denormalize_fn (normalize_fncts s') (TY_points_and_landmarks s') "X"
    /\ firstn (M s') (f Yraw) = get_transformed_points s'.
Proof.
  intros Hnorm Hcloud Hfncts Hscale Hrect HXm HYm Ht Hrows H.
  unfold Affine.transform_point_cloud in H. injection H as <-.
  unfold Affine.get_transformation_function,
    Affine.get_registration_parameters.
  cbn [set_TY assign normalize normalize_params normalize_fncts model D M
       TY_points_and_landmarks].
  rewrite Hnorm. cbn [bind fst snd].
  eexists. split; [reflexivity |].
  assert (Hwhole :
    mat_zip Rplus
      (dot (D s) Yraw
           (mat_map (fun v => v * X_scale (normalize_params s)
                              / Y_scale (normalize_params s))
                    (Affine.B (model s))))
      (tile (zipWith Rminus
               (zipWith Rplus
                  (map (fun v => v * X_scale (normalize_params s))
                       (Affine.t (model s)))
                  (X_mean (normalize_params s)))
               (dot_vec
                  (transpose (D s)
                     (mat_map (fun v => v * X_scale (normalize_params s)
                                        / Y_scale (normalize_params s))
                              (Affine.B (model s))))
                  (Y_mean (normalize_params s))))
            (length Yraw))
    = denormalize_fn (normalize_fncts s)
        (mat_zip Rplus
           (dot (D s) (Y_points_and_landmarks s) (Affine.B (model s)))
           (tile (Affine.t (model s)) (M s + K s)))
        "X").
  { rewrite Hfncts, Hcloud.
    unfold denormalize_fn, normalize_fn, env_mean, env_scale.
    cbn [String.eqb Ascii.eqb Bool.eqb].
    unfold mat_zip, tile, dot, mat_rowop.
    rewrite zipWith_repeat by (rewrite length_map; lia).
    rewrite zipWith_repeat
      by (unfold mat_map; rewrite !length_map; exact Hrows).
    unfold mat_map at 2 3 4. rewrite !map_map.
    apply map_ext_in. intros y Hy.
    unfold rect in Hrect. rewrite Forall_forall in Hrect.
    apply (denormalized_row s Hscale HXm HYm Ht y (Hrect y Hy)). }
  split; [exact Hwhole |].
  rewrite Hwhole. unfold get_transformed_points.
  cbn [set_TY assign normalize normalize_fncts M TY_points_and_landmarks].
  rewrite Hnorm. unfold denormalize_fn. apply normalize_fn_firstn.
Qed.

(** In the engine whose frames differ, the function returned maps the
    source cloud as given, [5, 12, 5], to the transformed cloud in the
    frame of the target. *)
Lemma affine_transformation_function_on_source_witness :
  exists s' f,
    Affine.transform_point_cloud framed_engine = Ok s'
    /\ Affine.get_transformation_function s' = Ok f
    /\ firstn (M s') (f [[5]; [12]; [5]]) = get_transformed_points s'.
Proof.
  assert (Hcloud :
            Y_points_and_landmarks framed_engine
            = normalize_fn (normalize_params framed_engine)
                           [[5]; [12]; [5]] "Y" false).
  { unfold normalize_fn, env_mean, env_scale, mat_map, mat_rowop.
    cbn [framed_engine assign_normalization Y_points_and_landmarks
         normalize_params String.eqb Ascii.eqb Bool.eqb Y_mean Y_scale map
         zipWith].
    repeat f_equal; field. }
  assert (Hscale : Y_scale (normalize_params framed_engine)
                   <> 0) by (simpl; lra).
  assert (Hrect : rect (D framed_engine) [[5]; [12]; [5]])
    by (repeat constructor).
  assert (Hrows : (length [[5]; [12]; [5]]
                   <= M framed_engine
                      + K framed_engine)%nat)
    by (simpl; lia).
  eexists.
  destruct (affine_transformation_function_on_source
              framed_engine _ [[5]; [12]; [5]]
              eq_refl Hcloud eq_refl Hscale Hrect eq_refl eq_refl eq_refl
              Hrows eq_refl) as [f [Hf [_ Hg]]].
  exists f. split; [reflexivity |]. split; [exact Hf | exact Hg].
Defined.

(** ** The normalized clouds *)

Lemma sum_scaled_squares (r : vec) (k : R) :
  sum (map (fun v => v * v) (map (fun v => v / k) r))
  = sum (map (fun v => v * v) r) / (k * k).
Proof.
  destruct (Req_dec_T k 0) as [-> | Hk].
  - induction r as [| x r IH]; simpl.
    + unfold Rdiv. ring.
    + fold (sum (map (fun v => v * v) (map (fun v => v / 0) r))).
      fold (sum (map (fun v => v * v) r)).
      rewrite IH. unfold Rdiv. rewrite Rmult_0_l, Rinv_0. ring.
  - induction r as [| x r IH]; simpl.
    + unfold Rdiv. ring.
    + fold (sum (map (fun v => v * v) (map (fun v => v / k) r))).
      fold (sum (map (fun v => v * v) r)).
      rewrite IH. field. exact Hk.
Qed.

Lemma sum_squares_scaled (C0 : matrix) (k : R) :
  sum (sum_axis1 (mat_map (fun v => v * v) (mat_map (fun v => v / k) C0)))
  = sum (sum_axis1 (mat_map (fun v => v * v) C0)) / (k * k).
Proof.
  unfold sum_axis1, mat_map. rewrite !map_map.
  induction C0 as [| r C0 IH]; simpl.
  - unfold Rdiv. ring.
  - fold (sum (map (fun x => sum (map (fun v => v * v)
                                      (map (fun v => v / k) x))) C0)).
    fold (sum (map (fun x => sum (map (fun v => v * v) x)) C0)).
    rewrite IH, sum_scaled_squares. unfold Rdiv. ring.
Qed.

(** Dividing a cloud by its root-mean-square norm, when that is not zero,
    gives a cloud of norm 1. *)
Lemma rms_scale_normalized (C0 : matrix) (n : nat) :
  rms_scale C0 n <> 0 ->
  rms_scale (mat_map (fun v => v / rms_scale C0 n) C0) n = 1.
Proof.
  intros Hsc. unfold rms_scale at 1. rewrite sum_squares_scaled.
  set (Q := sum (sum_axis1 (mat_map (fun v => v * v) C0))) in *.
  assert (Hpos : 0 < Q / INR n).
  { destruct (Rlt_dec 0 (Q / INR n)) as [H | H]; [exact H |].
    exfalso. apply Hsc. unfold rms_scale. fold Q.
    apply sqrt_neg_0. lra. }
  assert (Hsq : rms_scale C0 n * rms_scale C0 n = Q / INR n).
  { unfold rms_scale. fold Q. apply sqrt_sqrt. lra. }
  rewrite Hsq.
  assert (Hn : INR n <> 0).
  { intros Hz. rewrite Hz in Hpos. unfold Rdiv in Hpos.
    rewrite Rinv_0, Rmult_0_r in Hpos. lra. }
  assert (HQ : Q <> 0).
  { intros Hz. rewrite Hz in Hpos. unfold Rdiv in Hpos.
    rewrite Rmult_0_l in Hpos. lra. }
  replace (Q / (Q / INR n) / INR n) with 1 by (field; split; assumption).
  apply sqrt_1.
Qed.

Lemma mean_axis0_nth (c : nat) (A0 : matrix) (j : nat) :
  (j < c)%nat -> nth j (mean_axis0 c A0) 0 = sum (col j A0) / INR (length A0).
Proof.
  intros Hj. unfold mean_axis0, sum_axis0. rewrite map_map.
  rewrite (nth_indep _ 0 (sum (col 0 A0) / INR (length A0)))
    by (rewrite length_map, length_seq; exact Hj).
  rewrite (map_nth (fun x => sum (col x A0) / INR (length A0))
                   (seq 0 c) 0%nat j).
  rewrite seq_nth by exact Hj. reflexivity.
Qed.

Lemma sum_map_minus_div {A0 : Type} (f : A0 -> R) (m k : R) (l : list A0) :
  sum (map (fun a => (f a - m) / k) l)
  = (sum (map f l) - INR (length l) * m) / k.
Proof.
  induction l as [| a l IH].
  - simpl. unfold Rdiv. ring.
  - cbn [map sum fold_right length].
    fold (sum (map (fun a => (f a - m) / k) l)). fold (sum (map f l)).
    rewrite IH, S_INR. unfold Rdiv. ring.
Qed.

Lemma nth_map_div (l : vec) (k : R) (j : nat) :
  nth j (map (fun v => v / k) l) 0 = nth j l 0 / k.
Proof.
  revert j. induction l as [| x l IH]; intros [| j]; simpl;
    try (unfold Rdiv; ring); try reflexivity.
  apply IH.
Qed.

(** Centering a cloud on its mean and scaling it leaves a cloud of mean
    zero. *)
Lemma centered_mean (c : nat) (A0 : matrix) (k : R) :
  rect c A0 -> A0 <> [] ->
  mean_axis0 c (mat_map (fun v => v / k)
                        (mat_rowop Rminus A0 (mean_axis0 c A0)))
  = zeros c.
Proof.
  intros Hr Hne.
  assert (Hn : INR (length A0) <> 0).
  { destruct A0; [contradiction |]. apply not_0_INR. simpl. lia. }
  unfold mean_axis0 at 1, sum_axis0 at 1. rewrite map_map.
  unfold zeros.
  transitivity (map (fun _ : nat => 0) (seq 0 c));
    [| rewrite map_const, length_seq; reflexivity].
  apply map_ext_in. intros j Hj. apply in_seq in Hj.
  assert (Hcol :
            col j (mat_map (fun v => v / k)
                           (mat_rowop Rminus A0 (mean_axis0 c A0)))
            = map (fun row => (nth j row 0 - nth j (mean_axis0 c A0) 0) / k)
                  A0).
  { unfold col, mat_map, mat_rowop. rewrite !map_map.
    apply map_ext_in. intros row Hrow.
    unfold rect in Hr. rewrite Forall_forall in Hr.
    specialize (Hr row Hrow).
    rewrite nth_map_div.
    rewrite (zipWith_nth Rminus row (mean_axis0 c A0) j 0 0 0);
      [reflexivity | lia | rewrite mean_axis0_length; lia]. }
  rewrite Hcol, sum_map_minus_div, mean_axis0_nth by lia.
  fold (col j A0).
  unfold mat_map, mat_rowop. rewrite !length_map.
  match goal with
  | |- (?a - ?n1 * (?b / ?n2)) / _ / _ = 0 =>
    change n2 with n1; change b with a;
    replace (a - n1 * (a / n1)) with 0 by (field; exact Hn)
  end.
  unfold Rdiv. ring.
Qed.

(** X14: when the clouds are normalized separately and the target's scale
    is not zero, the normalized target cloud (points and landmarks) has
    mean zero and root-mean-square norm 1. *)
Theorem normalized_target_is_standard {T : Type} (s : EMRegistration T) :
  normalize s = true ->
  normalize_joint s = false ->
  rect (D s) (X_points_and_landmarks s) ->
  X_points_and_landmarks s <> [] ->
  X_scale (normalize_params (calculateNormalizationParams s)) <> 0 ->
  let s1 := normalizeData (calculateNormalizationParams s) in
  mean_axis0 (D s) (X_points_and_landmarks s1) = zeros (D s)
  /\ rms_scale (X_points_and_landmarks s1)
               (length (X_points_and_landmarks s1)) = 1.
Proof.
  intros Hn Hj Hr Hne. unfold calculateNormalizationParams.
  rewrite Hn, Hj.
  cbn [normalizeData assign_normalization normalize_params normalize_fncts
       X_scale X_points_and_landmarks].
  unfold normalize_fn, env_mean, env_scale.
  cbn [String.eqb Ascii.eqb Bool.eqb X_mean X_scale].
  intros Hsc. split.
  - apply centered_mean; assumption.
  - set (C0 := mat_rowop Rminus (X_points_and_landmarks s)
                        (mean_axis0 (D s) (X_points_and_landmarks s))) in *.
    replace (length (mat_map (fun v => v / rms_scale C0 (length C0)) C0))
      with (length C0) by (unfold mat_map; symmetry; apply length_map).
    apply rms_scale_normalized. exact Hsc.
Qed.

Lemma spread_engine_scale :
  X_scale (normalize_params (calculateNormalizationParams spread_engine))
  <> 0.
Proof.
  unfold calculateNormalizationParams.
  cbv beta iota zeta delta
      [spread_engine collapsed_engine assign_normalization normalize
       normalize_joint normalize_params X_scale X_points_and_landmarks
       Y_points_and_landmarks D mat_rowop map zipWith length mean_axis0
       sum_axis0 seq col nth].
  match goal with
  | |- rms_scale ?A0 ?n <> 0 =>
    assert (Hpos : 0 < rms_scale A0 n); [| lra]
  end.
  eapply rms_scale_pos;
    [lia | right; left; reflexivity | left; reflexivity |].
  cbv [sum fold_right]. replace (INR 3) with 3 by (simpl; lra). lra.
Qed.

Lemma normalized_target_is_standard_witness :
  normalize spread_engine = true
  /\ normalize_joint spread_engine = false
  /\ rect (D spread_engine) (X_points_and_landmarks spread_engine)
  /\ X_points_and_landmarks spread_engine <> []
  /\ X_scale (normalize_params (calculateNormalizationParams spread_engine))
     <> 0
  /\ mean_axis0 (D spread_engine)
                (X_points_and_landmarks
                   (normalizeData (calculateNormalizationParams spread_engine)))
     = zeros (D spread_engine).
Proof.
  assert (Hr : rect (D spread_engine) (X_points_and_landmarks spread_engine))
    by (repeat constructor).
  assert (Hne : X_points_and_landmarks spread_engine <> [])
    by discriminate.
  split; [reflexivity |]. split; [reflexivity |].
  split; [exact Hr |]. split; [exact Hne |].
  split; [exact spread_engine_scale |].
  destruct (normalized_target_is_standard spread_engine eq_refl eq_refl
              Hr Hne spread_engine_scale) as [Hm _].
  exact Hm.
Defined.

(** ** The returned clouds *)

(** X15: when the transformed cloud has its [M + K] rows,
    [get_transformed_points] returns [M] rows,
    [get_transformed_landmarks] returns [K], and together, in this order,
    they are the whole transformed cloud, denormalized with the target's
    parameters when normalization is on. *)
Theorem transformed_cloud_partition {T : Type} (s : EMRegistration T) :
  length (TY_points_and_landmarks s) = (M s + K s)%nat ->
  length (get_transformed_points s) = M s
  /\ length (get_transformed_landmarks s) = K s
  /\ get_transformed_points s ++ get_transformed_landmarks s
     = if normalize s
       then denormalize_fn (normalize_fncts s) (TY_points_and_landmarks s)
                           "X"
       else TY_points_and_landmarks s.
Proof.
  intros Hlen. unfold get_transformed_points, get_transformed_landmarks.
  assert (Hf : length (firstn (M s) (TY_points_and_landmarks s)) = M s)
    by (apply firstn_length_le; lia).
  assert (Hs : length (skipn (M s) (TY_points_and_landmarks s)) = K s)
    by (rewrite length_skipn; lia).
  destruct (normalize s).
  - unfold denormalize_fn. rewrite !normalize_fn_length.
    split; [exact Hf |]. split; [exact Hs |].
    unfold normalize_fn, mat_rowop, mat_map.
    rewrite <- !map_app, firstn_skipn. reflexivity.
  - split; [exact Hf |]. split; [exact Hs |]. apply firstn_skipn.
Qed.

Lemma transformed_cloud_partition_witness :
  length (TY_points_and_landmarks (collapsed_engine 0 None false))
  = (M (collapsed_engine 0 None false)
     + K (collapsed_engine 0 None false))%nat
  /\ length (get_transformed_points (collapsed_engine 0 None false)) = 2%nat
  /\ length (get_transformed_landmarks (collapsed_engine 0 None false))
     = 1%nat.
Proof.
  split; [reflexivity |].
  destruct (transformed_cloud_partition (collapsed_engine 0 None false)
              eq_refl) as [Hp [Hl _]].
  split; [exact Hp | exact Hl].
Defined.

Lemma affine_iterate_n_shaped_witness :
  exists s1,
    well_shaped (collapsed_engine 0 None false)
    /\ (M (collapsed_engine 0 None false)
        <= length (Y_points_and_landmarks (collapsed_engine 0 None false)))%nat
    /\ @iterate_n _ (Affine.affine_model (fun _ b => Ok b)) 1
                  (collapsed_engine 0 None false) = Ok s1
    /\ well_shaped s1.
Proof.
  pose proof (collapsed_well_shaped 0 None false) as Hw.
  assert (HY : (M (collapsed_engine 0 None false)
                <= length (Y_points_and_landmarks
                             (collapsed_engine 0 None false)))%nat)
    by (simpl; lia).
  destruct (affine_iterate_total (collapsed_engine 0 None false) 0)
    as [s1 Hs1];
    [simpl; lia | simpl; lia | simpl; lia | reflexivity | exact Hw
     | reflexivity |].
  assert (Hrun : @iterate_n _ (Affine.affine_model (fun _ b => Ok b)) 1
                            (collapsed_engine 0 None false) = Ok s1).
  { cbn [iterate_n]. rewrite Hs1. reflexivity. }
  exists s1. split; [exact Hw |]. split; [exact HY |].
  split; [exact Hrun |].
  destruct (affine_iterate_n_shaped (fun _ b => Ok b) 1 _ s1 Hw HY Hrun)
    as [Hw1 _].
  exact Hw1.
Defined.

(** ** A run of [register], pass by pass *)











